(** * xmlParse.py: a SAX content handler that pretty-prints XML

    Shallow embedding of [src/xmlParse.py] and the properties of its
    renderer (element stack, text buffer, last-write column) and of its
    command-line driver.

    Conventions of the embedding
    - a Python [str] is a [string]; its characters are read as the code
      points U+0000..U+00FF;
    - a Python [int] is a [Z];
    - the handler's three attributes and the text written to standard
      output form the [state]; every method is a computation in the monad
      [M], which threads the state and may raise a Python exception;
    - [sys.exit(n)] raises [SystemExit n], as in Python. *)

From Stdlib Require Import String Ascii List ZArith Lia Bool.
Import ListNotations.
Local Open Scope Z_scope.
Local Open Scope string_scope.

(** ** Exceptions, results and the state monad *)

Inductive exn : Type :=
| IndexError
| KeyError
| TypeError
| ValueError
| SystemExit (code : Z)
| SAXParseException (msg : string)
| OSError (msg : string).

Inductive result (A : Type) : Type :=
| Ok (a : A)
| Raise (e : exn).
Arguments Ok {A} a.
Arguments Raise {A} e.

(** Class attributes of [XmlContentHandler] (lines 31-33) plus the text
    written so far to [sys.stdout].  [elementStack] is the list of the
    class, changed in place by [append] and [pop]; the script creates one
    handler, so that one store for the three attributes is enough. *)
Record state : Type := mkState {
  charBuffer : string;
  elementStack : list string;
  nLastWritePos : Z;
  stdout : string
}.

Definition M (A : Type) : Type := state -> result A * state.

Definition ret {A} (a : A) : M A := fun st => (Ok a, st).

Definition bind {A B} (c : M A) (k : A -> M B) : M B :=
  fun st =>
    match c st with
    | (Ok a, st') => k a st'
    | (Raise e, st') => (Raise e, st')
    end.

Definition raise {A} (e : exn) : M A := fun st => (Raise e, st).

Definition lift {A} (r : result A) : M A := fun st => (r, st).

(** [try: c except ...: h]; a handler re-raises what it does not catch. *)
Definition try_except {A} (c : M A) (h : exn -> M A) : M A :=
  fun st =>
    match c st with
    | (Ok a, st') => (Ok a, st')
    | (Raise e, st') => h e st'
    end.

Declare Scope monad_scope.
Delimit Scope monad_scope with monad.
Notation "x <- c ;; k" := (bind c (fun x => k))
  (at level 61, c at next level, right associativity) : monad_scope.
Notation "c ;; k" := (bind c (fun _ => k))
  (at level 61, right associativity) : monad_scope.
Local Open Scope monad_scope.

Fixpoint forM_ {A} (l : list A) (body : A -> M unit) : M unit :=
  match l with
  | [] => ret tt
  | x :: l' => body x ;; forM_ l' body
  end.

(** [range(0, n)]: empty when [n <= 0]. *)
Definition range0 (n : Z) : list Z := map Z.of_nat (seq 0 (Z.to_nat n)).

(** ** Strings *)

Definition nl : string := String "010"%char EmptyString.
Definition ESC : ascii := "027"%char.

(** [str.__mod__] restricted to what the program's format strings use: the
    conversion [%s] and the escape [%%].  Too few arguments for the
    conversions, or arguments left over, raise [TypeError]. *)
Fixpoint format (fmt : string) (args : list string) : result string :=
  match fmt with
  | EmptyString =>
      match args with
      | [] => Ok EmptyString
      | _ :: _ => Raise TypeError
      end
  | String c rest =>
      if Ascii.eqb c "%"%char then
        match rest with
        | String d rest' =>
            if Ascii.eqb d "s"%char then
              match args with
              | [] => Raise TypeError
              | a :: args' =>
                  match format rest' args' with
                  | Ok r => Ok (a ++ r)
                  | Raise e => Raise e
                  end
              end
            else if Ascii.eqb d "%"%char then
              match format rest' args with
              | Ok r => Ok (String d r)
              | Raise e => Raise e
              end
            else Raise ValueError
        | EmptyString => Raise ValueError
        end
      else
        match format rest args with
        | Ok r => Ok (String c r)
        | Raise e => Raise e
        end
  end.

(** [str.isspace] on one character, for the code points below 256:
    TAB LF VT FF CR, FS GS RS US, SPACE, NEL (0x85) and NBSP (0xA0). *)
Definition isspace (c : ascii) : bool :=
  let n := N_of_ascii c in
  ((9 <=? n) && (n <=? 13) || (28 <=? n) && (n <=? 32)
   || (n =? 133) || (n =? 160))%N.

Fixpoint lstrip (s : string) : string :=
  match s with
  | EmptyString => EmptyString
  | String c r => if isspace c then lstrip r else s
  end.

Fixpoint rstrip (s : string) : string :=
  match s with
  | EmptyString => EmptyString
  | String c r =>
      match rstrip r with
      | EmptyString => if isspace c then EmptyString else String c EmptyString
      | r' => String c r'
      end
  end.

(** [str.strip()] with no argument. *)
Definition strip (s : string) : string := rstrip (lstrip s).

(** [n] copies of [s], one after the other. *)
Fixpoint rep (n : nat) (s : string) : string :=
  match n with
  | O => EmptyString
  | S n' => s ++ rep n' s
  end.

(** ** Colour escape sequences and colour macros (lines 15-28) *)

Definition RED : string := String ESC "[1;31;40m".
Definition GREEN : string := String ESC "[1;32;40m".
Definition BLUE : string := String ESC "[1;34;40m".
Definition CYAN : string := String ESC "[1;36;40m".
Definition WHITE : string := String ESC "[0;37;40m".
Definition VIOLET : string := String ESC "[1;35;40m".
Definition BLACK : string := String ESC "[0;30;40m".

Definition SPACES : string := BLACK ++ "%s" ++ WHITE.
Definition STARTNAME : string := RED ++ "%s " ++ WHITE.
Definition ENDNAME : string := RED ++ "/%s" ++ nl ++ WHITE.
Definition PARENSTMNT : string := BLUE ++ "(%s = %s) " ++ WHITE.
Definition ELEMENTDATA : string := GREEN ++ "%s " ++ WHITE.

(** ** Standard output and process exit *)

(** [sys.stdout.write(s)] *)
Definition write (s : string) : M unit :=
  fun st => (Ok tt, mkState (charBuffer st) (elementStack st)
                            (nLastWritePos st) (stdout st ++ s)).

(** [print(s)] *)
Definition print (s : string) : M unit := write (s ++ nl).

(** [print(a, b)] *)
Definition print2 (a b : string) : M unit := write (a ++ " " ++ b ++ nl).

(** [sys.exit(code)] *)
Definition sys_exit {A} (code : Z) : M A := raise (SystemExit code).

(** ** Attributes of a start tag

    [xml.sax.xmlreader.AttributesImpl] wraps a [dict]: the names are
    pairwise distinct and are listed in insertion order. *)
Definition attributes : Type := list (string * string).

Definition getNames (a : attributes) : list string := map fst a.

Fixpoint getValue (a : attributes) (name : string) : result string :=
  match a with
  | [] => Raise KeyError
  | (n, v) :: a' => if String.eqb n name then Ok v else getValue a' name
  end.

(** ** XmlContentHandler (lines 30-95) *)

(** [len(self.elementStack)] *)
Definition len_elementStack : M Z :=
  fun st => (Ok (Z.of_nat (List.length (elementStack st))), st).

(** [self.elementStack.append(name)] *)
Definition elementStack_append (name : string) : M unit :=
  fun st => (Ok tt, mkState (charBuffer st) (elementStack st ++ [name])%list
                            (nLastWritePos st) (stdout st)).

(** The last item of a list and the items before it. *)
Fixpoint unsnoc {A} (l : list A) : option (list A * A) :=
  match l with
  | [] => None
  | x :: l' =>
      match unsnoc l' with
      | None => Some ([], x)
      | Some (front, y) => Some (x :: front, y)
      end
  end.

(** [self.elementStack.pop()]: removes and returns the last item;
    [IndexError] on an empty list. *)
Definition elementStack_pop : M string :=
  fun st =>
    match unsnoc (elementStack st) with
    | None => (Raise IndexError, st)
    | Some (front, top) =>
        (Ok top, mkState (charBuffer st) front (nLastWritePos st) (stdout st))
    end.

Definition pushElementToStack (name : string) : M Z :=
  pos <- len_elementStack ;;
  elementStack_append name ;;
  ret pos.

(** Line 48-49 reads [print('%s\nelement %s ...\n\n' % WHITE, name)]: the
    operator [%] binds tighter than the comma, so the format string with
    its two conversions is applied to the single argument [WHITE], and the
    result and [name] are the two arguments of [print]. *)
Definition popElementFromStack (name : string) : M Z :=
  length <- len_elementStack ;;
  top <- elementStack_pop ;;
  if String.eqb name top then ret (length - 1)
  else
    msg <- lift (format ("%s" ++ nl ++ "element %s was not at the top of the stack"
                         ++ nl ++ nl) [WHITE]) ;;
    print2 msg name ;;
    sys_exit 4.

Definition writeSpaces (pos : Z) (chars : string) : M unit :=
  forM_ (range0 pos) (fun _ => s <- lift (format SPACES [chars]) ;; write s).

Definition writeNewLine : M unit := print EmptyString.

Definition writeStartName (name : string) : M unit :=
  s <- lift (format STARTNAME [name]) ;; write s.

Definition writeEndName (name : string) : M unit :=
  s <- lift (format ENDNAME [name]) ;; write s.

Definition writeElementData (data : string) : M unit :=
  if negb (String.eqb data EmptyString) then
    s <- lift (format ELEMENTDATA [data]) ;; write s
  else ret tt.

Definition writeAttributes (attrs : attributes) : M unit :=
  forM_ (getNames attrs) (fun iname =>
    v <- lift (getValue attrs iname) ;;
    s <- lift (format PARENSTMNT [iname; v]) ;;
    write s).

Definition getCharacterData : M string :=
  fun st => (Ok (strip (charBuffer st)),
             mkState EmptyString (elementStack st) (nLastWritePos st) (stdout st)).

(** [self.nLastWritePos = pos] *)
Definition set_nLastWritePos (pos : Z) : M unit :=
  fun st => (Ok tt, mkState (charBuffer st) (elementStack st) pos (stdout st)).

(** [self.nLastWritePos] *)
Definition get_nLastWritePos : M Z := fun st => (Ok (nLastWritePos st), st).

Definition startElement (name : string) (attrs : attributes) : M unit :=
  pos <- pushElementToStack name ;;
  writeNewLine ;;
  writeSpaces pos "   " ;;
  writeStartName name ;;
  writeAttributes attrs ;;
  set_nLastWritePos pos.

Definition endElement (name : string) : M unit :=
  pos <- popElementFromStack name ;;
  charStr <- getCharacterData ;;
  writeElementData charStr ;;
  last <- get_nLastWritePos ;;
  (if (pos <? last)%Z then writeSpaces pos "   " else ret tt) ;;
  writeEndName name.

Definition characters (content : string) : M unit :=
  fun st => (Ok tt, mkState (charBuffer st ++ content) (elementStack st)
                            (nLastWritePos st) (stdout st)).

(** ** The event source

    What [xml.sax.parse] does with the handler: it calls the handler's
    methods, one event after the other, and an exception of a handler
    ends the parse. *)
Inductive event : Type :=
| StartElement (name : string) (attrs : attributes)
| Characters (content : string)
| EndElement (name : string).

Definition deliver (e : event) : M unit :=
  match e with
  | StartElement name attrs => startElement name attrs
  | Characters content => characters content
  | EndElement name => endElement name
  end.

Definition feed (evs : list event) : M unit := forM_ evs deliver.

(** A new handler in a new process: lines 31-33, nothing written yet. *)
Definition initial : state := mkState EmptyString [] 0 EmptyString.

(** ** The driver (lines 97-123) *)

Definition usage (exitFlag : Z) : M unit :=
  print (nl ++ "USAGE: ./xmlParse.py xmlFileToView" ++ nl ++ nl) ;;
  sys_exit exitFlag.

Section Driver.

(** The two collaborators of [main]: [open], which returns the opened
    file or raises [OSError], and the SAX parser, which turns the file
    into the events it delivers, in order, followed or not by the
    message of the [SAXParseException] that ends the parse. *)
Variable source : Type.
Variable open_ : string -> result source.
Variable event_source : source -> list event * option string.

(** [xml.sax.parse(source, XmlContentHandler())] *)
Definition xml_sax_parse (src : source) : M unit :=
  feed (fst (event_source src)) ;;
  match snd (event_source src) with
  | Some msg => raise (SAXParseException msg)
  | None => ret tt
  end.

Definition main (sourceFileName : string) : M unit :=
  try_except
    (src <- lift (open_ sourceFileName) ;;
     xml_sax_parse src)
    (fun e =>
       match e with
       | SAXParseException msg =>
           print (nl ++ "Failed to parse " ++ sourceFileName ++
                  ". This appears not to be a valid xml document: " ++
                  msg ++ nl ++ nl) ;;
           sys_exit 2
       | OSError msg =>
           print (nl ++ "Failed to open " ++ sourceFileName ++ ": " ++
                  msg ++ nl ++ nl) ;;
           sys_exit 3
       | _ => raise e
       end).

(** [sys.argv[i]] *)
Definition argv_item (argv : list string) (i : nat) : M string :=
  match nth_error argv i with
  | Some a => ret a
  | None => raise IndexError
  end.

(** The body of [if __name__ == "__main__":]. *)
Definition script (argv : list string) : M unit :=
  a <- argv_item argv 1 ;;
  help <- (if String.eqb a "-h" then ret true
           else b <- argv_item argv 1 ;; ret (String.eqb b "--help")) ;;
  (if help : bool then usage 0 else ret tt) ;;
  (if negb (Z.of_nat (List.length argv) =? 2)%Z then usage 1 else ret tt) ;;
  f <- argv_item argv 1 ;;
  main f ;;
  print EmptyString ;;
  sys_exit 0.

End Driver.

Arguments xml_sax_parse {source} event_source src _.
Arguments main {source} open_ event_source sourceFileName _.
Arguments script {source} open_ event_source argv _.

(** The exit status of the interpreter: the code of [SystemExit], 1 for
    any other exception that nothing caught, 0 at the end of the script. *)
Definition exit_status {A} (r : result A) : Z :=
  match r with
  | Ok _ => 0
  | Raise (SystemExit code) => code
  | Raise _ => 1
  end.

(** ** Vocabulary of the properties *)

(** One indentation unit, as [writeSpaces pos '   '] writes it. *)
Definition filler : string := BLACK ++ "   " ++ WHITE.

Definition start_marker (name : string) : string := RED ++ name ++ " " ++ WHITE.

Definition end_marker (name : string) : string := RED ++ "/" ++ name ++ nl ++ WHITE.

Definition data_token (data : string) : string := GREEN ++ data ++ " " ++ WHITE.

Definition attribute_token (a : string * string) : string :=
  BLUE ++ "(" ++ fst a ++ " = " ++ snd a ++ ") " ++ WHITE.

Fixpoint attribute_tokens (attrs : attributes) : string :=
  match attrs with
  | [] => EmptyString
  | a :: attrs' => attribute_token a ++ attribute_tokens attrs'
  end.

(** Concatenation of the fragments, first to last. *)
Fixpoint join (frags : list string) : string :=
  match frags with
  | [] => EmptyString
  | f :: frags' => f ++ join frags'
  end.

(** The character data of a run of events, in order of arrival. *)
Fixpoint text_of (evs : list event) : string :=
  match evs with
  | [] => EmptyString
  | Characters c :: evs' => c ++ text_of evs'
  | _ :: evs' => text_of evs'
  end.

(** The names of the start tags of a run of events, in order of arrival. *)
Fixpoint start_names (evs : list event) : list string :=
  match evs with
  | [] => []
  | StartElement name _ :: evs' => name :: start_names evs'
  | _ :: evs' => start_names evs'
  end.

Definition is_end (e : event) : bool :=
  match e with
  | EndElement _ => true
  | _ => false
  end.

Fixpoint has_newline (s : string) : bool :=
  match s with
  | EmptyString => false
  | String c r => Ascii.eqb c "010"%char || has_newline r
  end.

Fixpoint all_space (s : string) : bool :=
  match s with
  | EmptyString => true
  | String c r => isspace c && all_space r
  end.

Definition starts_with_space (s : string) : bool :=
  match s with
  | EmptyString => false
  | String c _ => isspace c
  end.

Fixpoint ends_with_space (s : string) : bool :=
  match s with
  | EmptyString => false
  | String c EmptyString => isspace c
  | String _ r => ends_with_space r
  end.

(** What [usage] prints. *)
Definition usage_text : string :=
  nl ++ "USAGE: ./xmlParse.py xmlFileToView" ++ nl ++ nl ++ nl.

(** The state after [s] has been written to standard output. *)
Definition wrote (st : state) (s : string) : state :=
  mkState (charBuffer st) (elementStack st) (nLastWritePos st) (stdout st ++ s).

(** Proper bracket sequences of events: text anywhere, and every start
    tag closed by the end tag of the same name after a properly bracketed
    content.  An XML start tag has no two attributes of the same name. *)
Inductive balanced : list event -> Prop :=
| balanced_nil : balanced []
| balanced_text c evs :
    balanced evs -> balanced (Characters c :: evs)
| balanced_element name attrs inner rest :
    NoDup (getNames attrs) ->
    balanced inner -> balanced rest ->
    balanced (StartElement name attrs :: inner ++ EndElement name :: rest).

(** Nesting depth after a run of events: start tags seen minus end tags
    seen. *)
Definition delta (e : event) : Z :=
  match e with
  | StartElement _ _ => 1
  | Characters _ => 0
  | EndElement _ => -1
  end.

Fixpoint depth (evs : list event) : Z :=
  match evs with
  | [] => 0
  | e :: evs' => delta e + depth evs'
  end.

(** An exception that no statement of the program raises on purpose. *)
Definition unchecked {A} (r : result A) : bool :=
  match r with
  | Raise IndexError | Raise KeyError | Raise TypeError | Raise ValueError => true
  | _ => false
  end.

(** ** A concrete environment for the driver

    A source is the behaviour of the parser on it, which also describes a
    parser that breaks its contract; one path cannot be opened. *)
Module Demo.

Definition source : Type := (list event * option string)%type.

Definition truncated : source :=
  ([StartElement "a" []; StartElement "b" []], Some "<unknown>:1:8: mismatched tag").

Definition crossing : source :=
  ([StartElement "a" []; EndElement "b"], None).

Definition open_ (path : string) : result source :=
  if String.eqb path "missing.xml" then
    Raise (OSError "[Errno 2] No such file or directory: 'missing.xml'")
  else if String.eqb path "crossing.xml" then Ok crossing
  else Ok truncated.

Definition event_source (src : source) : list event * option string := src.

End Demo.

(** ** Vocabulary of the further properties *)

(** Does the run of events contain a start tag? *)
Definition has_start (evs : list event) : bool :=
  match start_names evs with
  | [] => false
  | _ :: _ => true
  end.

(** Every start tag of the run has attributes of pairwise distinct
    names, as the [dict] of [AttributesImpl] has. *)
Definition distinct_attributes (evs : list event) : Prop :=
  forall name attrs, In (StartElement name attrs) evs -> NoDup (getNames attrs).

(** [open_run names evs]: the run [evs] is made of properly bracketed
    runs separated by start tags that nothing in [evs] closes, and [names]
    are the names of these start tags, first to last. *)
Inductive open_run : list string -> list event -> Prop :=
| open_run_closed b :
    balanced b -> open_run [] b
| open_run_start names p name attrs b :
    open_run names p -> NoDup (getNames attrs) -> balanced b ->
    open_run (names ++ [name])%list (p ++ StartElement name attrs :: b)%list.

(** The run of events without its character data. *)
Fixpoint without_text (evs : list event) : list event :=
  match evs with
  | [] => []
  | Characters _ :: evs' => without_text evs'
  | e :: evs' => e :: without_text evs'
  end.

(** A second environment for the driver: every path opens, and the parser
    delivers the events of [<a id="7">hi<b/></a>] without an error. *)
Module Sample.

Definition source : Type := unit.

Definition document : list event :=
  [StartElement "a" [("id", "7")]; Characters "hi";
   StartElement "b" []; EndElement "b"; EndElement "a"].

Definition open_ (path : string) : result source := Ok tt.

Definition event_source (src : source) : list event * option string :=
  (document, None).

End Sample.

(** * Properties *)

(** ** Strings and formatting *)

Lemma append_nil_r (s : string) : s ++ EmptyString = s.
Proof. induction s as [|c s IH]; simpl; [reflexivity | now rewrite IH]. Qed.

Lemma append_assoc (a b c : string) : (a ++ b) ++ c = a ++ b ++ c.
Proof. induction a as [|x a IH]; simpl; [reflexivity | now rewrite IH]. Qed.

Lemma format_SPACES chars : format SPACES [chars] = Ok (BLACK ++ chars ++ WHITE).
Proof. reflexivity. Qed.

Lemma format_STARTNAME name : format STARTNAME [name] = Ok (start_marker name).
Proof. reflexivity. Qed.

Lemma format_ENDNAME name : format ENDNAME [name] = Ok (end_marker name).
Proof. reflexivity. Qed.

Lemma format_ELEMENTDATA data : format ELEMENTDATA [data] = Ok (data_token data).
Proof. reflexivity. Qed.

Lemma format_PARENSTMNT n v :
  format PARENSTMNT [n; v] = Ok (attribute_token (n, v)).
Proof. reflexivity. Qed.

(** ** Writing *)

Lemma wrote_nil st : wrote st EmptyString = st.
Proof. destruct st; unfold wrote; simpl. now rewrite append_nil_r. Qed.

Lemma wrote_wrote st a b : wrote (wrote st a) b = wrote st (a ++ b).
Proof. unfold wrote; simpl. now rewrite append_assoc. Qed.

Lemma forM_writeSpaces chars (l : list Z) st :
  forM_ l (fun _ => s <- lift (format SPACES [chars]) ;; write s) st
  = (Ok tt, wrote st (rep (List.length l) (BLACK ++ chars ++ WHITE))).
Proof.
  revert st; induction l as [|x l IH]; intros st; cbn [forM_ List.length rep].
  - unfold ret. now rewrite wrote_nil.
  - unfold bind at 1. unfold bind at 1. unfold lift. rewrite format_SPACES.
    unfold write at 1. fold (wrote st (BLACK ++ chars ++ WHITE)).
    rewrite IH, wrote_wrote. reflexivity.
Qed.

Lemma writeSpaces_spec pos chars st :
  writeSpaces pos chars st
  = (Ok tt, wrote st (rep (Z.to_nat pos) (BLACK ++ chars ++ WHITE))).
Proof.
  unfold writeSpaces. rewrite forM_writeSpaces. unfold range0.
  now rewrite length_map, length_seq.
Qed.

Lemma getValue_skip pre n v rest :
  ~ In n (getNames pre) -> getValue (pre ++ (n, v) :: rest)%list n = Ok v.
Proof.
  induction pre as [|[m w] pre IH]; simpl; intros Hn.
  - now rewrite String.eqb_refl.
  - destruct (String.eqb_spec m n) as [->|_]; [tauto|]. apply IH; tauto.
Qed.

Lemma forM_writeAttributes pre sub st :
  NoDup (getNames (pre ++ sub)%list) ->
  forM_ (getNames sub) (fun iname =>
    v <- lift (getValue (pre ++ sub)%list iname) ;;
    s <- lift (format PARENSTMNT [iname; v]) ;;
    write s) st
  = (Ok tt, wrote st (attribute_tokens sub)).
Proof.
  revert pre st; induction sub as [|[n v] sub IH]; intros pre st Hnd;
    cbn [forM_ getNames map fst attribute_tokens].
  - unfold ret. now rewrite wrote_nil.
  - unfold bind at 1. unfold bind at 1. unfold lift at 1.
    rewrite getValue_skip.
    + unfold bind at 1. unfold lift at 1. rewrite format_PARENSTMNT.
      unfold write at 1. fold (wrote st (attribute_token (n, v))).
      replace (pre ++ (n, v) :: sub)%list with ((pre ++ [(n, v)]) ++ sub)%list
        by now rewrite <- app_assoc.
      rewrite IH, wrote_wrote; [reflexivity|].
      now rewrite <- app_assoc.
    + unfold getNames in Hnd. rewrite map_app in Hnd. simpl in Hnd.
      apply NoDup_remove_2 in Hnd. intros Hin. apply Hnd.
      apply in_or_app. now left.
Qed.

Lemma writeAttributes_spec attrs st :
  NoDup (getNames attrs) ->
  writeAttributes attrs st = (Ok tt, wrote st (attribute_tokens attrs)).
Proof. intros Hnd. exact (forM_writeAttributes [] attrs st Hnd). Qed.

Lemma getValue_in attrs n :
  In n (getNames attrs) -> exists v, getValue attrs n = Ok v.
Proof.
  induction attrs as [|[m w] attrs IH]; simpl; [tauto|]. intros [->|Hin].
  - rewrite String.eqb_refl. now exists w.
  - destruct (String.eqb m n); [now exists w | now apply IH].
Qed.

Lemma forM_writeAttributes_total attrs names st :
  incl names (getNames attrs) ->
  exists out,
    forM_ names (fun iname =>
      v <- lift (getValue attrs iname) ;;
      s <- lift (format PARENSTMNT [iname; v]) ;;
      write s) st
    = (Ok tt, wrote st out).
Proof.
  revert st; induction names as [|n names IH]; intros st Hincl; cbn [forM_].
  - exists EmptyString. unfold ret. now rewrite wrote_nil.
  - destruct (getValue_in attrs n) as [v Hv]; [apply Hincl; now left|].
    destruct (IH (wrote st (attribute_token (n, v)))) as [out Hout].
    { intros x Hx. apply Hincl. now right. }
    exists (attribute_token (n, v) ++ out).
    unfold bind at 1. unfold bind at 1. unfold lift at 1. rewrite Hv.
    unfold bind at 1. unfold lift at 1. rewrite format_PARENSTMNT.
    unfold write at 1. fold (wrote st (attribute_token (n, v))).
    rewrite Hout, wrote_wrote. reflexivity.
Qed.

Lemma writeAttributes_total attrs st :
  exists out, writeAttributes attrs st = (Ok tt, wrote st out).
Proof. apply forM_writeAttributes_total. apply incl_refl. Qed.

(** ** The monad *)

Lemma bind_Ok {A B} (c : M A) (k : A -> M B) st a st' :
  c st = (Ok a, st') -> bind c k st = k a st'.
Proof. intros H. unfold bind. now rewrite H. Qed.

Lemma bind_Raise {A B} (c : M A) (k : A -> M B) st e st' :
  c st = (Raise e, st') -> bind c k st = (Raise e, st').
Proof. intros H. unfold bind. now rewrite H. Qed.

(** ** The element stack *)

Lemma unsnoc_snoc {A} (front : list A) (x : A) :
  unsnoc (front ++ [x])%list = Some (front, x).
Proof.
  induction front as [|y front IH]; simpl; [reflexivity | now rewrite IH].
Qed.

Lemma unsnoc_None {A} (l : list A) : unsnoc l = None -> l = [].
Proof.
  destruct l as [|x l]; simpl; [reflexivity|].
  destruct (unsnoc l) as [[front y]|]; discriminate.
Qed.

Lemma unsnoc_Some {A} (l front : list A) (x : A) :
  unsnoc l = Some (front, x) -> l = (front ++ [x])%list.
Proof.
  revert front; induction l as [|y l IH]; simpl; intros front H; [discriminate|].
  destruct (unsnoc l) as [[front' z]|] eqn:E.
  - inversion H; subst. simpl. f_equal. now apply IH.
  - inversion H; subst. apply unsnoc_None in E. now subst.
Qed.

Lemma pushElementToStack_spec name st :
  pushElementToStack name st
  = (Ok (Z.of_nat (List.length (elementStack st))),
     mkState (charBuffer st) (elementStack st ++ [name])%list
             (nLastWritePos st) (stdout st)).
Proof. reflexivity. Qed.

Lemma popElementFromStack_match name front st :
  elementStack st = (front ++ [name])%list ->
  popElementFromStack name st
  = (Ok (Z.of_nat (List.length (elementStack st)) - 1),
     mkState (charBuffer st) front (nLastWritePos st) (stdout st)).
Proof.
  intros Hs. unfold popElementFromStack.
  rewrite (bind_Ok _ _ st _ st) by reflexivity.
  erewrite bind_Ok.
  2:{ unfold elementStack_pop. rewrite Hs, unsnoc_snoc. reflexivity. }
  now rewrite String.eqb_refl.
Qed.

Lemma popElementFromStack_mismatch name top front st :
  elementStack st = (front ++ [top])%list -> name <> top ->
  popElementFromStack name st
  = (Raise TypeError,
     mkState (charBuffer st) front (nLastWritePos st) (stdout st)).
Proof.
  intros Hs Hne. unfold popElementFromStack.
  rewrite (bind_Ok _ _ st _ st) by reflexivity.
  erewrite bind_Ok.
  2:{ unfold elementStack_pop. rewrite Hs, unsnoc_snoc. reflexivity. }
  apply String.eqb_neq in Hne. rewrite Hne.
  apply bind_Raise. reflexivity.
Qed.

Lemma popElementFromStack_empty name st :
  elementStack st = [] -> popElementFromStack name st = (Raise IndexError, st).
Proof.
  intros Hs. unfold popElementFromStack.
  rewrite (bind_Ok _ _ st _ st) by reflexivity.
  apply bind_Raise. unfold elementStack_pop. now rewrite Hs.
Qed.

(** ** The three event handlers *)

Lemma startElement_spec name attrs st :
  NoDup (getNames attrs) ->
  startElement name attrs st
  = (Ok tt,
     mkState (charBuffer st) (elementStack st ++ [name])%list
             (Z.of_nat (List.length (elementStack st)))
             (stdout st ++ nl
              ++ rep (List.length (elementStack st)) filler
              ++ start_marker name ++ attribute_tokens attrs)).
Proof.
  intros Hnd. unfold startElement.
  erewrite bind_Ok by apply pushElementToStack_spec.
  erewrite bind_Ok by reflexivity.
  erewrite bind_Ok by apply writeSpaces_spec.
  erewrite bind_Ok by (unfold writeStartName; erewrite bind_Ok by
    (unfold lift; rewrite format_STARTNAME; reflexivity); reflexivity).
  erewrite bind_Ok by (apply writeAttributes_spec, Hnd).
  unfold set_nLastWritePos, wrote; cbn [charBuffer elementStack nLastWritePos stdout].
  rewrite Nat2Z.id.
  rewrite !append_assoc. reflexivity.
Qed.

Lemma startElement_total name attrs st :
  exists out,
    startElement name attrs st
    = (Ok tt,
       mkState (charBuffer st) (elementStack st ++ [name])%list
               (Z.of_nat (List.length (elementStack st)))
               (stdout st ++ out)).
Proof.
  unfold startElement.
  erewrite bind_Ok by apply pushElementToStack_spec.
  erewrite bind_Ok by reflexivity.
  erewrite bind_Ok by apply writeSpaces_spec.
  erewrite bind_Ok by (unfold writeStartName; erewrite bind_Ok by
    (unfold lift; rewrite format_STARTNAME; reflexivity); reflexivity).
  match goal with |- context [bind (writeAttributes attrs) _ ?s] =>
    destruct (writeAttributes_total attrs s) as [out Hout] end.
  erewrite bind_Ok by apply Hout.
  eexists. unfold set_nLastWritePos, wrote; cbn [charBuffer elementStack nLastWritePos stdout].
  rewrite !append_assoc. reflexivity.
Qed.

Lemma writeElementData_spec data st :
  writeElementData data st
  = (Ok tt, wrote st (if String.eqb data EmptyString then EmptyString
                      else data_token data)).
Proof.
  unfold writeElementData. destruct (String.eqb data EmptyString); simpl.
  - unfold ret. now rewrite wrote_nil.
  - reflexivity.
Qed.

Lemma endElement_spec name front st :
  elementStack st = (front ++ [name])%list ->
  endElement name st
  = (Ok tt,
     mkState EmptyString front (nLastWritePos st)
       (stdout st
        ++ (if String.eqb (strip (charBuffer st)) EmptyString then EmptyString
            else data_token (strip (charBuffer st)))
        ++ (if (Z.of_nat (List.length front) <? nLastWritePos st)%Z
            then rep (List.length front) filler else EmptyString)
        ++ end_marker name)).
Proof.
  intros Hs. unfold endElement.
  erewrite bind_Ok by (apply popElementFromStack_match, Hs).
  erewrite bind_Ok by reflexivity.
  erewrite bind_Ok by apply writeElementData_spec.
  erewrite bind_Ok by reflexivity.
  rewrite Hs, length_app, Nat2Z.inj_add. simpl List.length.
  replace (Z.of_nat (List.length front) + Z.of_nat 1 - 1)%Z
    with (Z.of_nat (List.length front)) by lia.
  cbn [nLastWritePos wrote getCharacterData].
  destruct (Z.of_nat (List.length front) <? nLastWritePos st)%Z.
  - erewrite bind_Ok by apply writeSpaces_spec.
    unfold writeEndName. erewrite bind_Ok by
      (unfold lift; rewrite format_ENDNAME; reflexivity).
    unfold write, wrote; cbn [charBuffer elementStack nLastWritePos stdout].
    rewrite Nat2Z.id, !append_assoc. reflexivity.
  - erewrite bind_Ok by reflexivity.
    unfold writeEndName. erewrite bind_Ok by
      (unfold lift; rewrite format_ENDNAME; reflexivity).
    unfold write, wrote; cbn [charBuffer elementStack nLastWritePos stdout].
    rewrite !append_assoc. reflexivity.
Qed.

Lemma endElement_mismatch name top front st :
  elementStack st = (front ++ [top])%list -> name <> top ->
  endElement name st
  = (Raise TypeError,
     mkState (charBuffer st) front (nLastWritePos st) (stdout st)).
Proof.
  intros Hs Hne. unfold endElement. apply bind_Raise.
  now apply popElementFromStack_mismatch with (top := top).
Qed.

Lemma endElement_empty name st :
  elementStack st = [] -> endElement name st = (Raise IndexError, st).
Proof.
  intros Hs. unfold endElement. apply bind_Raise.
  now apply popElementFromStack_empty.
Qed.

Lemma endElement_keeps_nLastWritePos name st :
  nLastWritePos (snd (endElement name st)) = nLastWritePos st.
Proof.
  destruct (unsnoc (elementStack st)) as [[front top]|] eqn:E.
  - apply unsnoc_Some in E. destruct (String.eqb_spec name top) as [->|Hne].
    + now rewrite (endElement_spec top front st E).
    + now rewrite (endElement_mismatch name top front st E Hne).
  - apply unsnoc_None in E. now rewrite endElement_empty.
Qed.

(** ** Line breaks in what a start tag writes *)

Lemma has_newline_app a b :
  has_newline (a ++ b) = has_newline a || has_newline b.
Proof.
  induction a as [|c a IH]; simpl; [reflexivity|].
  now rewrite IH, orb_assoc.
Qed.

Lemma has_newline_rep n s :
  has_newline s = false -> has_newline (rep n s) = false.
Proof.
  intros Hs. induction n as [|n IH]; simpl; [reflexivity|].
  now rewrite has_newline_app, Hs, IH.
Qed.

Lemma has_newline_attribute_tokens attrs :
  (forall a, In a attrs ->
             has_newline (fst a) = false /\ has_newline (snd a) = false) ->
  has_newline (attribute_tokens attrs) = false.
Proof.
  induction attrs as [|a attrs IH]; intros H; cbn [attribute_tokens];
    [reflexivity|].
  destruct (H a (or_introl eq_refl)) as [Hn Hv].
  unfold attribute_token.
  rewrite !has_newline_app, Hn, Hv, IH by (intros b Hb; apply H; now right).
  reflexivity.
Qed.

(** ** Start tags *)

(** C1.  [startElement name attrs] pushes [name] and obtains [pos], the
    length of the stack before the push; it writes a line break, then
    exactly [pos] filler units, then the element name, then every attribute
    of the event as [(name = value)] followed by a space, and it sets
    [nLastWritePos] to [pos].  Nothing that it writes after the line break
    contains a line break, unless the name or an attribute contains one:
    the attributes are on the line of the element name. *)
Theorem startElement_renders name attrs st :
  NoDup (getNames attrs) ->
  let pos := Z.of_nat (List.length (elementStack st)) in
  pushElementToStack name st
  = (Ok pos, mkState (charBuffer st) (elementStack st ++ [name])%list
                     (nLastWritePos st) (stdout st))
  /\ startElement name attrs st
     = (Ok tt, mkState (charBuffer st) (elementStack st ++ [name])%list pos
                 (stdout st ++ nl ++ rep (Z.to_nat pos) filler
                  ++ start_marker name ++ attribute_tokens attrs))
  /\ (has_newline name = false ->
      (forall a, In a attrs ->
                 has_newline (fst a) = false /\ has_newline (snd a) = false) ->
      has_newline (rep (Z.to_nat pos) filler ++ start_marker name
                   ++ attribute_tokens attrs) = false).
Proof.
  intros Hnd pos. split; [reflexivity|]. split.
  - unfold pos. rewrite Nat2Z.id. now apply startElement_spec.
  - intros Hname Hattrs. unfold start_marker.
    rewrite !has_newline_app, Hname, has_newline_rep by reflexivity.
    now rewrite has_newline_attribute_tokens.
Qed.

Lemma startElement_renders_witness :
  NoDup (getNames [("id", "7"); ("name", "x")])
  /\ startElement "item" [("id", "7"); ("name", "x")]
       (mkState EmptyString ["catalog"; "shelf"] 1 "...")
     = (Ok tt,
        mkState EmptyString ["catalog"; "shelf"; "item"] 2
          ("..." ++ nl ++ filler ++ filler ++ start_marker "item"
           ++ attribute_token ("id", "7") ++ attribute_token ("name", "x"))).
Proof.
  assert (Hnd : NoDup (getNames [("id", "7"); ("name", "x")])).
  { repeat constructor; simpl; intuition discriminate. }
  split; [exact Hnd|].
  exact (proj1 (proj2 (startElement_renders "item" [("id", "7"); ("name", "x")]
    (mkState EmptyString ["catalog"; "shelf"] 1 "...") Hnd))).
Defined.

(** ** End tags *)

(** C2.  When [name] is on top of the stack, at depth [pos],
    [endElement name] writes [pos] filler units before the closing marker
    if [pos < nLastWritePos] and none otherwise, then the closing marker: a
    slash, the name and a line break.  [endElement] leaves [nLastWritePos]
    as it is, whatever happens, and so does [characters]: only
    [startElement] assigns it. *)
Theorem endElement_renders name st :
  (forall front, elementStack st = (front ++ [name])%list ->
     let pos := Z.of_nat (List.length front) in
     popElementFromStack name st
     = (Ok pos, mkState (charBuffer st) front (nLastWritePos st) (stdout st))
     /\ endElement name st
        = (Ok tt,
           mkState EmptyString front (nLastWritePos st)
             (stdout st
              ++ (if String.eqb (strip (charBuffer st)) EmptyString
                  then EmptyString else data_token (strip (charBuffer st)))
              ++ (if (pos <? nLastWritePos st)%Z
                  then rep (Z.to_nat pos) filler else EmptyString)
              ++ RED ++ "/" ++ name ++ nl ++ WHITE)))
  /\ nLastWritePos (snd (endElement name st)) = nLastWritePos st
  /\ (forall content,
        nLastWritePos (snd (characters content st)) = nLastWritePos st).
Proof.
  split; [|split].
  - intros front Hs pos. split.
    + rewrite (popElementFromStack_match name front st Hs).
      rewrite Hs, length_app, Nat2Z.inj_add. simpl List.length.
      do 2 f_equal. unfold pos. lia.
    + unfold pos. rewrite Nat2Z.id. now apply endElement_spec.
  - apply endElement_keeps_nLastWritePos.
  - reflexivity.
Qed.

Lemma endElement_renders_witness :
  (* a leaf closed right after its own start tag: no filler *)
  endElement "b" (mkState "  x " ["a"; "b"] 1 "...")
  = (Ok tt, mkState EmptyString ["a"] 1
              ("..." ++ data_token "x" ++ end_marker "b"))
  (* a parent closed after a deeper start tag: its own depth in fillers *)
  /\ endElement "b" (mkState EmptyString ["a"; "b"] 2 "...")
     = (Ok tt, mkState EmptyString ["a"] 2 ("..." ++ filler ++ end_marker "b")).
Proof.
  split.
  - exact (proj2 (proj1 (endElement_renders "b"
      (mkState "  x " ["a"; "b"] 1 "...")) ["a"] eq_refl)).
  - exact (proj2 (proj1 (endElement_renders "b"
      (mkState EmptyString ["a"; "b"] 2 "...")) ["a"] eq_refl)).
Defined.

(** ** Runs of events *)

Lemma feed_cons e evs st :
  feed (e :: evs) st = bind (deliver e) (fun _ => feed evs) st.
Proof. reflexivity. Qed.

Lemma feed_app a b st :
  feed (a ++ b)%list st = bind (feed a) (fun _ => feed b) st.
Proof.
  revert st; induction a as [|e a IH]; intros st.
  - reflexivity.
  - cbn [app]. rewrite feed_cons. unfold bind. rewrite feed_cons. unfold bind.
    destruct (deliver e st) as [[[]|x] st1]; [|reflexivity].
    rewrite IH. reflexivity.
Qed.

Lemma depth_app a b : depth (a ++ b)%list = (depth a + depth b)%Z.
Proof. induction a as [|e a IH]; cbn [app depth]; lia. Qed.

Lemma balanced_depth evs : balanced evs -> depth evs = 0%Z.
Proof.
  induction 1 as [|c evs _ IH|name attrs inner rest _ _ IHi _ IHr];
    cbn [depth delta]; [reflexivity | lia |].
  rewrite depth_app. cbn [depth delta]. lia.
Qed.

Lemma balanced_attributes evs name attrs :
  balanced evs -> In (StartElement name attrs) evs -> NoDup (getNames attrs).
Proof.
  induction 1 as [|c evs _ IH|n a inner rest Hnd _ IHi _ IHr]; intros Hin.
  - destruct Hin.
  - destruct Hin as [Hin|Hin]; [discriminate | now apply IH].
  - destruct Hin as [Hin|Hin]; [now inversion Hin; subst|].
    apply in_app_or in Hin. destruct Hin as [Hin|[Hin|Hin]];
      [now apply IHi | discriminate | now apply IHr].
Qed.

(** A properly bracketed run is handled without an exception and gives
    the stack back as it found it. *)
Lemma feed_balanced evs :
  balanced evs ->
  forall st, exists st',
    feed evs st = (Ok tt, st') /\ elementStack st' = elementStack st.
Proof.
  induction 1 as [|c evs _ IH|name attrs inner rest Hnd _ IHi _ IHr]; intros st.
  - exists st. now split.
  - destruct (IH (mkState (charBuffer st ++ c) (elementStack st)
                          (nLastWritePos st) (stdout st))) as (st' & Hf & Hs).
    exists st'. split; [|exact Hs].
    rewrite feed_cons. erewrite bind_Ok by reflexivity. exact Hf.
  - rewrite feed_cons.
    erewrite bind_Ok by (apply startElement_spec, Hnd).
    match goal with |- context [feed _ ?s] => set (st1 := s) end.
    destruct (IHi st1) as (st2 & Hf2 & Hs2).
    assert (He : elementStack st2 = (elementStack st ++ [name])%list)
      by (rewrite Hs2; reflexivity).
    destruct (IHr (fst (snd (endElement name st2), tt))) as (st4 & Hf4 & Hs4).
    exists st4. rewrite feed_app. erewrite bind_Ok by exact Hf2.
    rewrite feed_cons.
    rewrite (endElement_spec name (elementStack st) st2 He) in Hf4, Hs4.
    erewrite bind_Ok by (apply endElement_spec, He).
    split; [exact Hf4 | exact Hs4].
Qed.

(** After any prefix of a properly bracketed run the stack is the stack
    at the start plus one name for each element that is still open. *)
Lemma feed_prefix evs :
  balanced evs ->
  forall p q, evs = (p ++ q)%list ->
  forall st, exists st' opened,
    feed p st = (Ok tt, st')
    /\ elementStack st' = (elementStack st ++ opened)%list
    /\ Z.of_nat (List.length opened) = depth p.
Proof.
  induction 1 as [|c evs _ IH|name attrs inner rest Hnd Hbi IHi _ IHr];
    intros p q Hpq st.
  - symmetry in Hpq. apply app_eq_nil in Hpq. destruct Hpq as [-> _].
    exists st, []. rewrite app_nil_r. now repeat split.
  - destruct p as [|e p].
    + exists st, []. rewrite app_nil_r. now repeat split.
    + cbn [app] in Hpq. inversion Hpq; subst e evs.
      destruct (IH p q eq_refl
        (mkState (charBuffer st ++ c) (elementStack st)
                 (nLastWritePos st) (stdout st))) as (st' & opened & Hf & Hs & Hd).
      exists st', opened. rewrite feed_cons.
      erewrite bind_Ok by reflexivity.
      cbn [depth delta]. repeat split; [exact Hf | exact Hs | lia].
  - destruct p as [|e p].
    + exists st, []. rewrite app_nil_r. now repeat split.
    + cbn [app] in Hpq. inversion Hpq as [[He Hrest]]. subst e. clear Hpq.
      rewrite feed_cons.
      erewrite bind_Ok by (apply startElement_spec, Hnd).
      match goal with |- context [feed _ ?s] => set (st1 := s) end.
      symmetry in Hrest. apply app_eq_app in Hrest.
      destruct Hrest as [l [[Hp Hq]|[Hi Hq]]].
      * (* the prefix reaches the end tag or goes beyond it *)
        destruct l as [|e l].
        { rewrite app_nil_r in Hp. subst p.
          destruct (IHi inner [] (eq_sym (app_nil_r inner)) st1)
            as (st' & opened & Hf & Hs & Hd).
          exists st', ([name] ++ opened)%list.
          cbn [depth delta]. repeat split; [exact Hf | |].
          - rewrite Hs. unfold st1. cbn [elementStack].
            now rewrite <- app_assoc.
          - rewrite length_app. cbn [List.length]. lia. }
        cbn [app] in Hq. inversion Hq as [[He Hr]]. subst e p.
        destruct (feed_balanced inner Hbi st1) as (st2 & Hf2 & Hs2).
        assert (Hstack : elementStack st2 = (elementStack st ++ [name])%list)
          by (rewrite Hs2; reflexivity).
        destruct (IHr l q Hr (fst (snd (endElement name st2), tt)))
          as (st' & opened & Hf & Hs & Hd).
        rewrite (endElement_spec name (elementStack st) st2 Hstack) in Hf, Hs.
        exists st', opened.
        rewrite feed_app. erewrite bind_Ok by exact Hf2.
        rewrite feed_cons. erewrite bind_Ok by (apply endElement_spec, Hstack).
        cbn [depth delta]. rewrite depth_app. cbn [depth delta].
        rewrite (balanced_depth inner Hbi).
        repeat split; [exact Hf | exact Hs | lia].
      * (* the prefix ends inside the content of the element *)
        destruct (IHi p l Hi st1) as (st' & opened & Hf & Hs & Hd).
        exists st', ([name] ++ opened)%list.
        cbn [depth delta]. repeat split; [exact Hf | |].
        -- rewrite Hs. unfold st1. cbn [elementStack].
           now rewrite <- app_assoc.
        -- rewrite length_app. cbn [List.length]. lia.
Qed.

(** ** Stack depth and nesting depth *)

(** C3.  On a properly bracketed run of events that starts with an empty
    stack: after every prefix [p] the handler has raised nothing and the
    length of the stack is the nesting depth [depth p], which is never
    negative; a start tag that comes next is written after exactly
    [depth p] filler units; and after the last event the stack is empty. *)
Theorem stack_depth_is_nesting_depth evs st :
  balanced evs -> elementStack st = [] ->
  (forall p q, evs = (p ++ q)%list ->
     exists st',
       feed p st = (Ok tt, st')
       /\ Z.of_nat (List.length (elementStack st')) = depth p
       /\ (0 <= depth p)%Z
       /\ (forall name attrs q', q = StartElement name attrs :: q' ->
             startElement name attrs st'
             = (Ok tt,
                mkState (charBuffer st') (elementStack st' ++ [name])%list
                  (depth p)
                  (stdout st' ++ nl ++ rep (Z.to_nat (depth p)) filler
                   ++ start_marker name ++ attribute_tokens attrs))))
  /\ (exists st', feed evs st = (Ok tt, st') /\ elementStack st' = []).
Proof.
  intros Hb Hempty. split.
  - intros p q Hpq.
    destruct (feed_prefix evs Hb p q Hpq st) as (st' & opened & Hf & Hs & Hd).
    rewrite Hempty in Hs. cbn [app] in Hs.
    assert (Hlen : Z.of_nat (List.length (elementStack st')) = depth p)
      by now rewrite Hs.
    exists st'. repeat split; [exact Hf | exact Hlen | lia |].
    intros name attrs q' Hq.
    assert (Hnd : NoDup (getNames attrs)).
    { apply (balanced_attributes evs name attrs Hb).
      rewrite Hpq, Hq. apply in_or_app. right. now left. }
    rewrite <- Hlen, Nat2Z.id. now apply startElement_spec.
  - destruct (feed_balanced evs Hb st) as (st' & Hf & Hs).
    exists st'. split; [exact Hf | now rewrite Hs].
Qed.

Lemma stack_depth_is_nesting_depth_witness :
  balanced [StartElement "a" []; StartElement "b" []; EndElement "b";
            StartElement "c" []; EndElement "c"; EndElement "a"]
  /\ exists st',
       feed [StartElement "a" []; StartElement "b" []; EndElement "b"] initial
       = (Ok tt, st')
       /\ Z.of_nat (List.length (elementStack st')) = 1%Z
       /\ stdout (snd (startElement "c" [] st'))
          = stdout st' ++ nl ++ filler ++ start_marker "c".
Proof.
  assert (Hb : balanced [StartElement "a" []; StartElement "b" []; EndElement "b";
                         StartElement "c" []; EndElement "c"; EndElement "a"]).
  { apply (balanced_element "a" []
             [StartElement "b" []; EndElement "b";
              StartElement "c" []; EndElement "c"] []); [constructor| |constructor].
    apply (balanced_element "b" [] [] [StartElement "c" []; EndElement "c"]);
      [constructor|constructor|].
    apply (balanced_element "c" [] [] []); constructor. }
  split; [exact Hb|].
  destruct (proj1 (stack_depth_is_nesting_depth _ initial Hb eq_refl)
              [StartElement "a" []; StartElement "b" []; EndElement "b"]
              [StartElement "c" []; EndElement "c"; EndElement "a"] eq_refl)
    as (st' & Hf & Hlen & _ & Hstart).
  exists st'. split; [exact Hf|]. split; [exact Hlen|].
  rewrite (Hstart "c" [] _ eq_refl). cbn [snd stdout depth delta].
  rewrite append_nil_r. reflexivity.
Defined.

(** ** Trimming *)

Lemma lstrip_spec s :
  exists l, s = l ++ lstrip s /\ all_space l = true
            /\ starts_with_space (lstrip s) = false.
Proof.
  induction s as [|c s (l & Hs & Hl & Hh)]; [now exists EmptyString|].
  cbn [lstrip]. destruct (isspace c) eqn:Ec.
  - exists (String c l). cbn [append all_space]. rewrite Ec, Hl.
    repeat split; [now f_equal | exact Hh].
  - exists EmptyString. repeat split. exact Ec.
Qed.

Lemma rstrip_spec s :
  exists r, s = rstrip s ++ r /\ all_space r = true
            /\ ends_with_space (rstrip s) = false.
Proof.
  induction s as [|c s (r & Hs & Hr & He)]; [now exists EmptyString|].
  cbn [rstrip]. destruct (rstrip s) as [|d s'] eqn:Es.
  - cbn [append] in Hs. subst r. destruct (isspace c) eqn:Ec.
    + exists (String c s). cbn [append all_space]. now rewrite Ec, Hr.
    + exists s. repeat split; [exact Hr | exact Ec].
  - exists r. repeat split; [|exact Hr| exact He].
    cbn [append]. f_equal. exact Hs.
Qed.

Lemma rstrip_head s :
  starts_with_space s = false -> starts_with_space (rstrip s) = false.
Proof.
  destruct s as [|c s]; [reflexivity|]. cbn [rstrip starts_with_space].
  intros Hc. destruct (rstrip s); [now rewrite Hc | exact Hc].
Qed.

(** [strip] removes a run of white space at each end and nothing else,
    and what it returns neither starts nor ends with white space. *)
Lemma strip_spec s :
  exists l r, s = l ++ strip s ++ r
              /\ all_space l = true /\ all_space r = true
              /\ starts_with_space (strip s) = false
              /\ ends_with_space (strip s) = false.
Proof.
  destruct (lstrip_spec s) as (l & Hs & Hl & Hh).
  destruct (rstrip_spec (lstrip s)) as (r & Hs' & Hr & He).
  exists l, r. unfold strip. repeat split;
    [now rewrite <- Hs' | exact Hl | exact Hr | now apply rstrip_head | exact He].
Qed.

(** ** Character data *)

(** Events other than end tags raise nothing, append their character
    data to the buffer and their names to the stack. *)
Lemma feed_open evs :
  forallb (fun e => negb (is_end e)) evs = true ->
  forall st, exists st',
    feed evs st = (Ok tt, st')
    /\ charBuffer st' = charBuffer st ++ text_of evs
    /\ elementStack st' = (elementStack st ++ start_names evs)%list.
Proof.
  induction evs as [|e evs IH]; intros Hall st.
  - exists st. now rewrite append_nil_r, app_nil_r.
  - cbn [forallb] in Hall. apply andb_true_iff in Hall. destruct Hall as [He Hall].
    rewrite feed_cons. destruct e as [name attrs|c|name]; [| |discriminate].
    + destruct (startElement_total name attrs st) as [out Hout].
      erewrite bind_Ok by exact Hout.
      match goal with |- context [feed _ ?s] =>
        destruct (IH Hall s) as (st' & Hf & Hc & Hs) end.
      exists st'. cbn [charBuffer elementStack] in Hc, Hs.
      cbn [text_of start_names]. rewrite <- app_assoc in Hs.
      now repeat split.
    + erewrite bind_Ok by reflexivity.
      match goal with |- context [feed _ ?s] =>
        destruct (IH Hall s) as (st' & Hf & Hc & Hs) end.
      exists st'. cbn [charBuffer elementStack] in Hc, Hs.
      cbn [text_of start_names]. rewrite append_assoc in Hc.
      now repeat split.
Qed.

(** C4.  From a state whose buffer has just been drained, the character
    data of the events delivered before the next end tag are in the
    buffer, joined in order of arrival; that end tag trims the whole text
    once, writes it as one data token unless it is empty, in which case it
    writes no data token, and leaves the buffer empty. *)
Theorem text_is_joined_then_trimmed evs name front st :
  forallb (fun e => negb (is_end e)) evs = true ->
  charBuffer st = EmptyString ->
  (elementStack st ++ start_names evs)%list = (front ++ [name])%list ->
  let text := strip (text_of evs) in
  exists st1 st2,
    feed evs st = (Ok tt, st1)
    /\ charBuffer st1 = text_of evs
    /\ endElement name st1 = (Ok tt, st2)
    /\ feed (evs ++ [EndElement name])%list st = (Ok tt, st2)
    /\ charBuffer st2 = EmptyString
    /\ stdout st2
       = stdout st1
         ++ (if String.eqb text EmptyString then EmptyString
             else GREEN ++ text ++ " " ++ WHITE)
         ++ (if (Z.of_nat (List.length front) <? nLastWritePos st1)%Z
             then rep (List.length front) filler else EmptyString)
         ++ end_marker name
    /\ (exists l r, text_of evs = l ++ text ++ r
                    /\ all_space l = true /\ all_space r = true
                    /\ starts_with_space text = false
                    /\ ends_with_space text = false).
Proof.
  intros Hall Hbuf Hstack text.
  destruct (feed_open evs Hall st) as (st1 & Hf & Hc & Hs).
  rewrite Hbuf in Hc. cbn [append] in Hc. rewrite Hstack in Hs.
  pose proof (endElement_spec name front st1 Hs) as Hend.
  rewrite Hc in Hend.
  eexists st1, _.
  split; [exact Hf|]. split; [exact Hc|]. split; [exact Hend|].
  split; [|split; [reflexivity|]; split; [reflexivity | apply strip_spec]].
  rewrite feed_app. erewrite bind_Ok by exact Hf.
  rewrite feed_cons. erewrite bind_Ok by exact Hend. reflexivity.
Qed.

Lemma text_is_joined_then_trimmed_witness :
  (* two fragments of one word *)
  feed [Characters "  Hel"; Characters "lo "; EndElement "x"]
       (mkState EmptyString ["x"] 0 "...")
  = (Ok tt, mkState EmptyString [] 0
              ("..." ++ data_token "Hello" ++ end_marker "x"))
  (* white space only *)
  /\ feed [Characters "   "; Characters nl; Characters "  "; EndElement "x"]
          (mkState EmptyString ["x"] 0 "...")
     = (Ok tt, mkState EmptyString [] 0 ("..." ++ end_marker "x")).
Proof.
  split.
  - destruct (text_is_joined_then_trimmed
                [Characters "  Hel"; Characters "lo "] "x" []
                (mkState EmptyString ["x"] 0 "...") eq_refl eq_refl eq_refl)
      as (st1 & st2 & Hf & _ & Hend & Hall & _).
    cbv in Hf. injection Hf as <-.
    etransitivity; [exact Hall|]. rewrite <- Hend. reflexivity.
  - destruct (text_is_joined_then_trimmed
                [Characters "   "; Characters nl; Characters "  "] "x" []
                (mkState EmptyString ["x"] 0 "...") eq_refl eq_refl eq_refl)
      as (st1 & st2 & Hf & _ & Hend & Hall & _).
    cbv in Hf. injection Hf as <-.
    etransitivity; [exact Hall|]. rewrite <- Hend. reflexivity.
Defined.

(** ** Text in front of a child element *)

Lemma state_eta st :
  mkState (charBuffer st) (elementStack st) (nLastWritePos st) (stdout st) = st.
Proof. now destruct st. Qed.

Lemma feed_fragments frags evs st :
  feed (map Characters frags ++ evs)%list st
  = feed evs (mkState (charBuffer st ++ join frags) (elementStack st)
                      (nLastWritePos st) (stdout st)).
Proof.
  revert st; induction frags as [|f frags IH]; intros st; cbn [map app join].
  - now rewrite append_nil_r, state_eta.
  - rewrite feed_cons. erewrite bind_Ok by reflexivity.
    rewrite IH. cbn [charBuffer elementStack nLastWritePos stdout].
    now rewrite append_assoc.
Qed.

Lemma feed_text frags st :
  feed (map Characters frags) st
  = (Ok tt, mkState (charBuffer st ++ join frags) (elementStack st)
                    (nLastWritePos st) (stdout st)).
Proof.
  rewrite <- (app_nil_r (map Characters frags)). now rewrite feed_fragments.
Qed.

(** C10.  [startElement] does not touch the buffer.  In any state, at any
    depth and whatever the buffer holds: the character data that arrive
    after the start tag of an element and before the start tag of a child
    are still in the buffer when the child starts; the end tag of the child
    trims them together with what was in the buffer before and with the
    child's own character data, and writes them as the data of the child;
    the end tag of the enclosing element, if it comes next, finds the
    buffer empty and writes no data, only its fillers and its closing
    marker. *)
Theorem text_before_child_is_written_at_child_end
    a b attrs_a attrs_b before inside st :
  NoDup (getNames attrs_a) -> NoDup (getNames attrs_b) ->
  let text := strip (charBuffer st ++ join before ++ join inside) in
  exists st3 st4 st5,
    feed (StartElement a attrs_a :: map Characters before
          ++ StartElement b attrs_b :: map Characters inside)%list st
    = (Ok tt, st3)
    /\ charBuffer st3 = charBuffer st ++ join before ++ join inside
    /\ endElement b st3 = (Ok tt, st4)
    /\ stdout st4
       = stdout st3
         ++ (if String.eqb text EmptyString then EmptyString
             else data_token text)
         ++ end_marker b
    /\ charBuffer st4 = EmptyString
    /\ endElement a st4 = (Ok tt, st5)
    /\ stdout st5
       = stdout st4 ++ rep (List.length (elementStack st)) filler
         ++ end_marker a
    /\ elementStack st5 = elementStack st
    /\ feed (StartElement a attrs_a :: map Characters before
             ++ StartElement b attrs_b :: map Characters inside
             ++ [EndElement b; EndElement a])%list st
       = (Ok tt, st5).
Proof.
  intros Ha Hb text.
  pose proof (startElement_spec a attrs_a st Ha) as H1.
  match type of H1 with _ = (_, ?s) => set (st1 := s) in * end.
  set (st2 := mkState (charBuffer st1 ++ join before) (elementStack st1)
                      (nLastWritePos st1) (stdout st1)).
  pose proof (startElement_spec b attrs_b st2 Hb) as H2.
  match type of H2 with _ = (_, ?s) => set (st2' := s) in * end.
  set (st3 := mkState (charBuffer st2' ++ join inside) (elementStack st2')
                      (nLastWritePos st2') (stdout st2')).
  assert (Hfeed3 :
    feed (StartElement a attrs_a :: map Characters before
          ++ StartElement b attrs_b :: map Characters inside)%list st
    = (Ok tt, st3)).
  { rewrite feed_cons. erewrite bind_Ok by exact H1.
    rewrite feed_fragments. fold st2.
    rewrite feed_cons. erewrite bind_Ok by exact H2.
    apply feed_text. }
  assert (Hbuf : charBuffer st3 = charBuffer st ++ join before ++ join inside).
  { unfold st3, st2', st2, st1. cbn [charBuffer]. now rewrite append_assoc. }
  assert (Hs3 : elementStack st3 = ((elementStack st ++ [a]) ++ [b])%list)
    by reflexivity.
  assert (Hn3 : nLastWritePos st3
                = Z.of_nat (List.length (elementStack st ++ [a])%list))
    by reflexivity.
  pose proof (endElement_spec b (elementStack st ++ [a])%list st3 Hs3) as H4.
  rewrite Hn3, Z.ltb_irrefl, Hbuf in H4. fold text in H4.
  match type of H4 with _ = (_, ?s) => set (st4 := s) in * end.
  pose proof (endElement_spec a (elementStack st) st4 eq_refl) as H5.
  assert (Hlt : (Z.of_nat (List.length (elementStack st))
                 <? nLastWritePos st4)%Z = true).
  { unfold st4. cbn [nLastWritePos]. rewrite length_app, Nat2Z.inj_add.
    cbn [List.length]. apply Z.ltb_lt. lia. }
  rewrite Hlt in H5.
  replace (strip (charBuffer st4)) with EmptyString in H5 by reflexivity.
  cbn [String.eqb append] in H5.
  match type of H5 with _ = (_, ?s) => set (st5 := s) in * end.
  exists st3, st4, st5.
  split; [exact Hfeed3|]. split; [exact Hbuf|]. split; [exact H4|].
  split; [reflexivity|]. split; [reflexivity|]. split; [exact H5|].
  split; [reflexivity|]. split; [reflexivity|].
  replace (StartElement a attrs_a :: map Characters before
           ++ StartElement b attrs_b :: map Characters inside
           ++ [EndElement b; EndElement a])%list
    with ((StartElement a attrs_a :: map Characters before
           ++ StartElement b attrs_b :: map Characters inside)
          ++ [EndElement b; EndElement a])%list.
  2:{ cbn [app]. rewrite <- app_assoc. reflexivity. }
  rewrite feed_app. erewrite bind_Ok by exact Hfeed3.
  rewrite feed_cons. erewrite bind_Ok by exact H4.
  rewrite feed_cons. erewrite bind_Ok by exact H5. reflexivity.
Qed.

Lemma text_before_child_is_written_at_child_end_witness :
  (* the text of the root goes to its child *)
  feed [StartElement "a" []; Characters "hello"; StartElement "b" [];
        EndElement "b"; EndElement "a"] initial
  = (Ok tt,
     mkState EmptyString [] 1
       (nl ++ start_marker "a" ++ nl ++ filler ++ start_marker "b"
        ++ data_token "hello" ++ end_marker "b" ++ end_marker "a"))
  (* at depth 2, with text left in the buffer, in pieces, and text of the
     child itself *)
  /\ feed [StartElement "a" [("k", "v")]; Characters "hel"; Characters "lo";
           StartElement "b" []; Characters " you "; EndElement "b";
           EndElement "a"]
          (mkState " oh " ["r"; "s"] 1 "...")
     = (Ok tt,
        mkState EmptyString ["r"; "s"] 3
          ("..." ++ nl ++ filler ++ filler ++ start_marker "a"
           ++ attribute_token ("k", "v")
           ++ nl ++ filler ++ filler ++ filler ++ start_marker "b"
           ++ data_token "oh hello you" ++ end_marker "b"
           ++ filler ++ filler ++ end_marker "a")).
Proof.
  split.
  - destruct (text_before_child_is_written_at_child_end "a" "b" [] []
                ["hello"] [] initial (NoDup_nil _) (NoDup_nil _))
      as (st3 & st4 & st5 & Hf3 & _ & H4 & _ & _ & H5 & _ & _ & Hall).
    cbv in Hf3. injection Hf3 as <-.
    cbv in H4. injection H4 as <-.
    etransitivity; [exact Hall|]. rewrite <- H5. reflexivity.
  - assert (Hk : NoDup (getNames [("k", "v")]))
      by (repeat constructor; intros []).
    destruct (text_before_child_is_written_at_child_end "a" "b" [("k", "v")] []
                ["hel"; "lo"] [" you "] (mkState " oh " ["r"; "s"] 1 "...")
                Hk (NoDup_nil _))
      as (st3 & st4 & st5 & Hf3 & _ & H4 & _ & _ & H5 & _ & _ & Hall).
    cbv in Hf3. injection Hf3 as <-.
    cbv in H4. injection H4 as <-.
    etransitivity; [exact Hall|]. rewrite <- H5. reflexivity.
Defined.

(** ** Inconsistent events *)

(** C5.  The names differ: [popElementFromStack "b"] on the stack [["a"]]
    removes ["a"] and then raises [TypeError], because the format string of
    the report has two conversions and one argument; nothing is printed and
    [sys.exit(4)] is not reached.  With an event source that delivers
    [StartElement a] and then [EndElement b], the process ends with exit
    status 1, with only the start tag of [a] on standard output. *)
Theorem pop_mismatch_raises_TypeError :
  popElementFromStack "b" (mkState EmptyString ["a"] 0 EmptyString)
  = (Raise TypeError, mkState EmptyString [] 0 EmptyString)
  /\ script Demo.open_ Demo.event_source ["./xmlParse.py"; "crossing.xml"] initial
     = (Raise TypeError, mkState EmptyString [] 0 (nl ++ start_marker "a"))
  /\ exit_status
       (fst (script Demo.open_ Demo.event_source
               ["./xmlParse.py"; "crossing.xml"] initial)) = 1%Z.
Proof. repeat split. Qed.

(** C6, as the claim states it, fails: an end tag that arrives while the
    stack is empty makes [list.pop] raise [IndexError]; the handler does not
    test the stack before it pops. *)
Lemma pop_on_empty_stack_is_unchecked :
  popElementFromStack "a" initial = (Raise IndexError, initial)
  /\ feed [EndElement "a"] initial = (Raise IndexError, initial)
  /\ ~ (forall evs, unchecked (fst (feed evs initial)) = false).
Proof.
  split; [reflexivity|]. split; [reflexivity|].
  intros H. specialize (H [EndElement "a"]). discriminate H.
Qed.

(** C6, amended.  On an empty stack [popElementFromStack] and [endElement]
    raise [IndexError] and leave the state as it is, standard output
    included.  In a properly bracketed run of events no end tag meets an
    empty stack: each one finds its own name on top. *)
Theorem pop_relies_on_bracketing name st :
  elementStack st = [] ->
  popElementFromStack name st = (Raise IndexError, st)
  /\ endElement name st = (Raise IndexError, st)
  /\ (forall evs p closing q,
        balanced evs -> evs = (p ++ EndElement closing :: q)%list ->
        exists st' front,
          feed p st = (Ok tt, st')
          /\ elementStack st' = (front ++ [closing])%list).
Proof.
  intros Hempty. split; [now apply popElementFromStack_empty|].
  split; [now apply endElement_empty|].
  intros evs p closing q Hb Hpq.
  destruct (feed_prefix evs Hb p _ Hpq st) as (st' & opened & Hf & Hs & _).
  destruct (feed_prefix evs Hb (p ++ [EndElement closing])%list q) with (st := st)
    as (st'' & opened' & Hf' & _).
  { now rewrite <- app_assoc. }
  exists st'. rewrite feed_app in Hf'. erewrite bind_Ok in Hf' by exact Hf.
  rewrite feed_cons in Hf'.
  destruct (unsnoc (elementStack st')) as [[front top]|] eqn:E.
  - apply unsnoc_Some in E. exists front. split; [exact Hf|].
    destruct (String.eqb_spec closing top) as [->|Hne]; [exact E|].
    erewrite bind_Raise in Hf'
      by (apply endElement_mismatch with (top := top); eassumption).
    discriminate Hf'.
  - apply unsnoc_None in E.
    erewrite bind_Raise in Hf' by (apply endElement_empty; exact E).
    discriminate Hf'.
Qed.

Lemma pop_relies_on_bracketing_witness :
  elementStack (mkState "text" [] 3 "...") = []
  /\ endElement "a" (mkState "text" [] 3 "...")
     = (Raise IndexError, mkState "text" [] 3 "...").
Proof.
  split; [reflexivity|].
  exact (proj1 (proj2 (pop_relies_on_bracketing "a"
                         (mkState "text" [] 3 "...") eq_refl))).
Defined.

(** ** The command line *)

Section CommandLine.

Context {source : Type}.
Variable open_ : string -> result source.
Variable event_source : source -> list event * option string.

Lemma script_help prog a rest st :
  a = "-h" \/ a = "--help" ->
  script open_ event_source (prog :: a :: rest) st
  = (Raise (SystemExit 0), wrote st usage_text).
Proof. intros [->| ->]; reflexivity. Qed.

Lemma script_too_many prog a b rest st :
  a <> "-h" -> a <> "--help" ->
  script open_ event_source (prog :: a :: b :: rest) st
  = (Raise (SystemExit 1), wrote st usage_text).
Proof.
  intros H1 H2. apply String.eqb_neq in H1, H2. unfold script.
  erewrite bind_Ok by reflexivity. rewrite H1.
  erewrite bind_Ok by
    (erewrite bind_Ok by reflexivity; rewrite H2; reflexivity).
  erewrite bind_Ok by reflexivity.
  apply bind_Raise.
  cbn [List.length]. rewrite !Nat2Z.inj_succ.
  destruct (Z.eqb_spec (Z.succ (Z.succ (Z.succ (Z.of_nat (List.length rest))))) 2);
    [lia | reflexivity].
Qed.

Lemma script_one prog a st :
  a <> "-h" -> a <> "--help" ->
  script open_ event_source [prog; a] st
  = bind (main open_ event_source a)
         (fun _ => print EmptyString ;; sys_exit 0) st.
Proof.
  intros H1 H2. apply String.eqb_neq in H1, H2. unfold script.
  erewrite bind_Ok by reflexivity. rewrite H1.
  erewrite bind_Ok by
    (erewrite bind_Ok by reflexivity; rewrite H2; reflexivity).
  erewrite bind_Ok by reflexivity.
  erewrite bind_Ok by reflexivity.
  erewrite bind_Ok by reflexivity. reflexivity.
Qed.

Lemma main_open_fails path msg st :
  open_ path = Raise (OSError msg) ->
  main open_ event_source path st
  = (Raise (SystemExit 3),
     wrote st (nl ++ "Failed to open " ++ path ++ ": " ++ msg
               ++ nl ++ nl ++ nl)).
Proof.
  intros Ho. unfold main, try_except.
  erewrite bind_Raise by (unfold lift; rewrite Ho; reflexivity).
  unfold bind, print, write, sys_exit, raise, wrote.
  cbn [charBuffer elementStack nLastWritePos stdout].
  rewrite !append_assoc. reflexivity.
Qed.

Lemma main_parse_fails path src msg st st' :
  open_ path = Ok src ->
  feed (fst (event_source src)) st = (Ok tt, st') ->
  snd (event_source src) = Some msg ->
  main open_ event_source path st
  = (Raise (SystemExit 2),
     wrote st' (nl ++ "Failed to parse " ++ path
                ++ ". This appears not to be a valid xml document: "
                ++ msg ++ nl ++ nl ++ nl)).
Proof.
  intros Ho Hf He. unfold main, try_except.
  erewrite bind_Ok by (unfold lift; rewrite Ho; reflexivity).
  unfold xml_sax_parse. erewrite bind_Ok by exact Hf. rewrite He.
  unfold bind, print, write, sys_exit, raise, wrote.
  cbn [charBuffer elementStack nLastWritePos stdout].
  rewrite !append_assoc. reflexivity.
Qed.

(** C7.  With no argument at all, line 116 evaluates [sys.argv[1]]
    before line 118 counts the arguments: the script raises [IndexError],
    the usage text is not printed, and the exit status 1 is that of an
    exception that nothing caught. *)
Theorem no_argument_raises_IndexError :
  script open_ event_source ["./xmlParse.py"] initial
  = (Raise IndexError, initial)
  /\ stdout (snd (script open_ event_source ["./xmlParse.py"] initial))
     = EmptyString
  /\ exit_status (fst (script open_ event_source ["./xmlParse.py"] initial))
     = 1%Z.
Proof. repeat split. Qed.

(** C8, amended.  The help flag is tested before the arguments are
    counted, and it is tested on the first argument only.  When the first
    argument is [-h] or [--help], the script prints the usage text and
    exits with status 0, whatever arguments follow.  When the first
    argument is not a help flag and other arguments follow it, the script
    prints the usage text and exits with status 1, whatever these arguments
    are: a help flag in a later position is not recognised as such, and the
    exit status is not 0. *)
Theorem help_flag_first prog a rest st :
  ((a = "-h" \/ a = "--help") ->
   script open_ event_source (prog :: a :: rest) st
   = (Raise (SystemExit 0), wrote st usage_text)
   /\ exit_status (fst (script open_ event_source (prog :: a :: rest) st))
      = 0%Z)
  /\ (a <> "-h" -> a <> "--help" -> rest <> [] ->
      script open_ event_source (prog :: a :: rest) st
      = (Raise (SystemExit 1), wrote st usage_text)
      /\ exit_status (fst (script open_ event_source (prog :: a :: rest) st))
         = 1%Z)
  /\ (a <> "-h" -> a <> "--help" ->
      In "-h" rest \/ In "--help" rest ->
      script open_ event_source (prog :: a :: rest) st
      = (Raise (SystemExit 1), wrote st usage_text)
      /\ exit_status (fst (script open_ event_source (prog :: a :: rest) st))
         <> 0%Z).
Proof.
  split; [|split].
  - intros Ha. rewrite (script_help prog a rest st Ha). now split.
  - intros H1 H2 Hrest. destruct rest as [|b rest]; [now destruct Hrest|].
    rewrite (script_too_many prog a b rest st H1 H2). now split.
  - intros H1 H2 Hin. destruct rest as [|b rest]; [now destruct Hin|].
    rewrite (script_too_many prog a b rest st H1 H2).
    split; [reflexivity | discriminate].
Qed.

(** C9.  With one argument that is not a help flag: if the path cannot
    be opened, the script prints the file name with the message of the
    [OSError] and exits with status 3, and no event reaches the handler;
    if the parser ends with a [SAXParseException] after it has delivered
    its events, the script prints the file name with the message of the
    parser and exits with status 2.  In both cases the file is opened
    once and parsed at most once. *)
Theorem one_argument_error_exits prog path st :
  path <> "-h" -> path <> "--help" ->
  (forall msg,
     open_ path = Raise (OSError msg) ->
     script open_ event_source [prog; path] st
     = (Raise (SystemExit 3),
        wrote st (nl ++ "Failed to open " ++ path ++ ": " ++ msg
                  ++ nl ++ nl ++ nl))
     /\ exit_status (fst (script open_ event_source [prog; path] st)) = 3%Z)
  /\ (forall src msg st',
        open_ path = Ok src ->
        feed (fst (event_source src)) st = (Ok tt, st') ->
        snd (event_source src) = Some msg ->
        script open_ event_source [prog; path] st
        = (Raise (SystemExit 2),
           wrote st' (nl ++ "Failed to parse " ++ path
                      ++ ". This appears not to be a valid xml document: "
                      ++ msg ++ nl ++ nl ++ nl))
        /\ exit_status (fst (script open_ event_source [prog; path] st))
           = 2%Z).
Proof.
  intros H1 H2. split.
  - intros msg Ho. rewrite (script_one prog path st H1 H2).
    erewrite bind_Raise by (apply main_open_fails, Ho). now split.
  - intros src msg st' Ho Hf He. rewrite (script_one prog path st H1 H2).
    erewrite bind_Raise by (eapply main_parse_fails; eassumption).
    now split.
Qed.

End CommandLine.

(** C8, as the claim states it, fails: a help flag that is not the first
    argument is an argument like any other, and with two arguments the
    script exits with status 1. *)
Lemma help_flag_second_exits_1 :
  script Demo.open_ Demo.event_source
         ["./xmlParse.py"; "doc.xml"; "--help"] initial
  = (Raise (SystemExit 1), wrote initial usage_text)
  /\ exit_status
       (fst (script Demo.open_ Demo.event_source
               ["./xmlParse.py"; "doc.xml"; "--help"] initial)) <> 0%Z.
Proof. split; [reflexivity | discriminate]. Qed.

Lemma help_flag_first_witness :
  (* the flag first, then two more arguments *)
  script Demo.open_ Demo.event_source
         ["./xmlParse.py"; "--help"; "doc.xml"; "more.xml"] initial
  = (Raise (SystemExit 0), wrote initial usage_text)
  (* the flag in the third and last position *)
  /\ script Demo.open_ Demo.event_source
            ["./xmlParse.py"; "a.xml"; "b.xml"; "-h"] initial
     = (Raise (SystemExit 1), wrote initial usage_text).
Proof.
  split.
  - exact (proj1 (proj1 (help_flag_first Demo.open_ Demo.event_source
      "./xmlParse.py" "--help" ["doc.xml"; "more.xml"] initial)
      (or_intror eq_refl))).
  - refine (proj1 (proj2 (proj2 (help_flag_first Demo.open_ Demo.event_source
      "./xmlParse.py" "a.xml" ["b.xml"; "-h"] initial)) _ _ _));
      [discriminate | discriminate | left; right; left; reflexivity].
Defined.

Lemma one_argument_error_exits_witness :
  exit_status
    (fst (script Demo.open_ Demo.event_source
            ["./xmlParse.py"; "missing.xml"] initial)) = 3%Z
  /\ script Demo.open_ Demo.event_source ["./xmlParse.py"; "broken.xml"] initial
     = (Raise (SystemExit 2),
        mkState EmptyString ["a"; "b"] 1
          (nl ++ start_marker "a" ++ nl ++ filler ++ start_marker "b"
           ++ nl ++ "Failed to parse broken.xml. This appears not to be a valid xml document: <unknown>:1:8: mismatched tag"
           ++ nl ++ nl ++ nl)).
Proof.
  split.
  - refine (proj2 (proj1 (one_argument_error_exits Demo.open_ Demo.event_source
      "./xmlParse.py" "missing.xml" initial _ _) _ eq_refl)); discriminate.
  - refine (proj1 (proj2 (one_argument_error_exits Demo.open_ Demo.event_source
      "./xmlParse.py" "broken.xml" initial _ _)
      Demo.truncated "<unknown>:1:8: mismatched tag" _ eq_refl eq_refl eq_refl));
      discriminate.
Defined.

(** * Further properties of the handler *)

(** ** Outcomes of one event *)

(** The three ways [endElement] can end. *)
Lemma endElement_cases name st :
  (exists front,
     elementStack st = (front ++ [name])%list
     /\ exists out,
          endElement name st
          = (Ok tt, mkState EmptyString front (nLastWritePos st)
                            (stdout st ++ out)))
  \/ (exists front top,
        elementStack st = (front ++ [top])%list /\ name <> top
        /\ endElement name st
           = (Raise TypeError,
              mkState (charBuffer st) front (nLastWritePos st) (stdout st)))
  \/ (elementStack st = [] /\ endElement name st = (Raise IndexError, st)).
Proof.
  destruct (unsnoc (elementStack st)) as [[front top]|] eqn:E.
  - apply unsnoc_Some in E. destruct (String.eqb_spec name top) as [->|Hne].
    + left. exists front. split; [exact E|]. eexists.
      rewrite (endElement_spec top front st E). reflexivity.
    + right. left. exists front, top. split; [exact E|]. split; [exact Hne|].
      now apply endElement_mismatch with (top := top).
  - apply unsnoc_None in E. right. right. split; [exact E|].
    now apply endElement_empty.
Qed.

Lemma deliver_outcome e st :
  (exists st', deliver e st = (Ok tt, st'))
  \/ (exists st', deliver e st = (Raise IndexError, st'))
  \/ (exists st', deliver e st = (Raise TypeError, st')).
Proof.
  destruct e as [name attrs|c|name]; cbn [deliver].
  - left. destruct (startElement_total name attrs st) as [out H]. eauto.
  - left. eexists. reflexivity.
  - destruct (endElement_cases name st)
      as [(front & _ & out & H)|[(front & top & _ & _ & H)|[_ H]]]; eauto.
Qed.

Lemma feed_outcome evs st :
  (exists st', feed evs st = (Ok tt, st'))
  \/ (exists st', feed evs st = (Raise IndexError, st'))
  \/ (exists st', feed evs st = (Raise TypeError, st')).
Proof.
  revert st; induction evs as [|e evs IH]; intros st.
  - left. exists st. reflexivity.
  - rewrite feed_cons.
    destruct (deliver_outcome e st) as [[st1 H]|[[st1 H]|[st1 H]]].
    + erewrite bind_Ok by exact H. apply IH.
    + right. left. exists st1. now apply bind_Raise.
    + right. right. exists st1. now apply bind_Raise.
Qed.

(** ** Push and pop *)

(** X1.  Popping a name right after pushing it gives back the position that
    the push returned and puts the whole state back as it was. *)
Theorem push_then_pop name st :
  (pos <- pushElementToStack name ;;
   pos' <- popElementFromStack name ;;
   ret (pos, pos')) st
  = (Ok (Z.of_nat (List.length (elementStack st)),
         Z.of_nat (List.length (elementStack st))), st).
Proof.
  erewrite bind_Ok by apply pushElementToStack_spec.
  erewrite bind_Ok by (apply popElementFromStack_match; reflexivity).
  cbn [elementStack charBuffer nLastWritePos stdout]. unfold ret.
  rewrite length_app, Nat2Z.inj_add, state_eta. cbn [List.length].
  replace (Z.of_nat (List.length (elementStack st)) + Z.of_nat 1 - 1)%Z
    with (Z.of_nat (List.length (elementStack st))) by lia.
  reflexivity.
Qed.

(** ** Where the handler stops *)

(** X2.  Whatever the events and the state, a run of events ends in one
    of three ways: it is handled to the end; or it stops with [IndexError]
    at the first end tag that finds the stack empty, the state being the
    one that the events before it left; or it stops with [TypeError] at the
    first end tag whose name is not the one on top of the stack, which has
    been removed, nothing else being changed or written.  So the handler
    never leaves through [sys.exit]. *)
Theorem handler_never_exits evs st :
  ((exists st', feed evs st = (Ok tt, st'))
   \/ (exists p name q st1,
         evs = (p ++ EndElement name :: q)%list
         /\ feed p st = (Ok tt, st1)
         /\ elementStack st1 = []
         /\ feed evs st = (Raise IndexError, st1))
   \/ (exists p name q st1 front top,
         evs = (p ++ EndElement name :: q)%list
         /\ feed p st = (Ok tt, st1)
         /\ elementStack st1 = (front ++ [top])%list /\ name <> top
         /\ feed evs st
            = (Raise TypeError,
               mkState (charBuffer st1) front (nLastWritePos st1)
                       (stdout st1))))
  /\ (forall code, fst (feed evs st) <> Raise (SystemExit code)).
Proof.
  split.
  - revert st; induction evs as [|e evs IH]; intros st.
    { left. exists st. reflexivity. }
    assert (Hstep : forall st1, deliver e st = (Ok tt, st1) ->
      (exists st', feed (e :: evs) st = (Ok tt, st'))
      \/ (exists p name q st2,
            e :: evs = (p ++ EndElement name :: q)%list
            /\ feed p st = (Ok tt, st2)
            /\ elementStack st2 = []
            /\ feed (e :: evs) st = (Raise IndexError, st2))
      \/ (exists p name q st2 front top,
            e :: evs = (p ++ EndElement name :: q)%list
            /\ feed p st = (Ok tt, st2)
            /\ elementStack st2 = (front ++ [top])%list /\ name <> top
            /\ feed (e :: evs) st
               = (Raise TypeError,
                  mkState (charBuffer st2) front (nLastWritePos st2)
                          (stdout st2)))).
    { intros st1 Hd.
      assert (Hcons : forall l, feed (e :: l) st = feed l st1)
        by (intros l; rewrite feed_cons; now erewrite bind_Ok by exact Hd).
      rewrite Hcons.
      destruct (IH st1)
        as [[st' H]|[(p & name & q & st2 & -> & Hp & Hs & H)
                    |(p & name & q & st2 & front & top & -> & Hp & Hs & Hne & H)]].
      - left. now exists st'.
      - right. left. exists (e :: p), name, q, st2.
        rewrite Hcons. now repeat split.
      - right. right. exists (e :: p), name, q, st2, front, top.
        rewrite Hcons. now repeat split. }
    destruct e as [name attrs|c|name].
    + destruct (startElement_total name attrs st) as [out H].
      exact (Hstep _ H).
    + exact (Hstep _ eq_refl).
    + destruct (endElement_cases name st)
        as [(front & _ & out & H)|[(front & top & Hs & Hne & H)|[Hs H]]].
      * exact (Hstep _ H).
      * right. right. exists [], name, evs, st, front, top.
        rewrite feed_cons. erewrite bind_Raise by exact H. now repeat split.
      * right. left. exists [], name, evs, st.
        rewrite feed_cons. erewrite bind_Raise by exact H. now repeat split.
  - intros code.
    destruct (feed_outcome evs st) as [[st' H]|[[st' H]|[st' H]]]; rewrite H;
      discriminate.
Qed.

(** ** Delivery of character data in pieces *)

(** X4.  The parser may cut character data into pieces as it likes: two
    ways of cutting the same text, followed by the same events, give the
    same result, the same state and the same output. *)
Theorem fragmentation_is_invisible frags1 frags2 evs st :
  join frags1 = join frags2 ->
  feed (map Characters frags1 ++ evs)%list st
  = feed (map Characters frags2 ++ evs)%list st.
Proof. intros H. now rewrite !feed_fragments, H. Qed.

Lemma fragmentation_is_invisible_witness :
  join ["  Hel"; "lo "] = join [" "; " Hello"; EmptyString; " "]
  /\ feed [Characters "  Hel"; Characters "lo "; EndElement "x"]
          (mkState EmptyString ["x"] 0 "...")
     = feed [Characters " "; Characters " Hello"; Characters EmptyString;
             Characters " "; EndElement "x"]
            (mkState EmptyString ["x"] 0 "...").
Proof.
  split; [reflexivity|].
  exact (fragmentation_is_invisible ["  Hel"; "lo "]
           [" "; " Hello"; EmptyString; " "] [EndElement "x"]
           (mkState EmptyString ["x"] 0 "...") eq_refl).
Defined.

(** ** Where the closing tag is written *)

(** After a properly bracketed run, [nLastWritePos] is what it was if the
    run has no start tag, and otherwise is not below the depth at which
    the run started. *)
Lemma nLastWritePos_after_balanced evs :
  balanced evs ->
  forall st st', feed evs st = (Ok tt, st') ->
    (has_start evs = false -> nLastWritePos st' = nLastWritePos st)
    /\ (has_start evs = true ->
        (Z.of_nat (List.length (elementStack st)) <= nLastWritePos st')%Z).
Proof.
  induction 1 as [|c evs _ IH|name attrs inner rest Hnd Hbi IHi Hbr IHr];
    intros st st' Hf.
  - injection Hf as <-. split; [reflexivity | discriminate].
  - rewrite feed_cons in Hf. erewrite bind_Ok in Hf by reflexivity.
    apply IH in Hf. exact Hf.
  - split; [discriminate|]. intros _.
    rewrite feed_cons in Hf.
    erewrite bind_Ok in Hf by (apply startElement_spec, Hnd).
    match type of Hf with feed _ ?s = _ => set (st1 := s) in * end.
    destruct (feed_balanced inner Hbi st1) as (st2 & Hf2 & Hs2).
    assert (Hstack : elementStack st2 = (elementStack st ++ [name])%list)
      by (rewrite Hs2; reflexivity).
    rewrite feed_app in Hf. erewrite bind_Ok in Hf by exact Hf2.
    rewrite feed_cons in Hf.
    erewrite bind_Ok in Hf by (apply endElement_spec, Hstack).
    destruct (IHi st1 st2 Hf2) as [Hi0 Hi1].
    assert (H2 : (Z.of_nat (List.length (elementStack st)) <= nLastWritePos st2)%Z).
    { destruct (has_start inner).
      - specialize (Hi1 eq_refl). unfold st1 in Hi1. cbn [elementStack] in Hi1.
        rewrite length_app, Nat2Z.inj_add in Hi1. lia.
      - rewrite (Hi0 eq_refl). unfold st1. cbn [nLastWritePos]. lia. }
    apply IHr in Hf. destruct Hf as [Hr0 Hr1].
    cbn [nLastWritePos elementStack] in Hr0, Hr1.
    destruct (has_start rest).
    + now apply Hr1.
    + now rewrite (Hr0 eq_refl).
Qed.

(** X5.  For an element with a properly bracketed content, the closing tag
    comes after [depth] filler units when the content has a child element,
    and directly after what is on the line when it has none; [depth] is
    the depth of the element, the length of the stack before its start
    tag. *)
Theorem closing_tag_indented_iff_child name attrs inner st :
  NoDup (getNames attrs) -> balanced inner ->
  exists st2 st3,
    feed (StartElement name attrs :: inner) st = (Ok tt, st2)
    /\ endElement name st2 = (Ok tt, st3)
    /\ feed (StartElement name attrs :: inner ++ [EndElement name])%list st
       = (Ok tt, st3)
    /\ stdout st3
       = stdout st2
         ++ (if String.eqb (strip (charBuffer st2)) EmptyString then EmptyString
             else data_token (strip (charBuffer st2)))
         ++ (if has_start inner
             then rep (List.length (elementStack st)) filler
             else EmptyString)
         ++ end_marker name.
Proof.
  intros Hnd Hbi.
  pose proof (startElement_spec name attrs st Hnd) as H1.
  match type of H1 with _ = (_, ?s) => set (st1 := s) in * end.
  destruct (feed_balanced inner Hbi st1) as (st2 & Hf2 & Hs2).
  assert (Hstack : elementStack st2 = (elementStack st ++ [name])%list)
    by (rewrite Hs2; reflexivity).
  pose proof (endElement_spec name (elementStack st) st2 Hstack) as H3.
  destruct (nLastWritePos_after_balanced inner Hbi st1 st2 Hf2) as [Hi0 Hi1].
  assert (Hfeed : feed (StartElement name attrs :: inner) st = (Ok tt, st2)).
  { rewrite feed_cons. erewrite bind_Ok by exact H1. exact Hf2. }
  eexists st2, _. split; [exact Hfeed|]. split; [exact H3|]. split.
  - change (StartElement name attrs :: inner ++ [EndElement name])%list
      with ((StartElement name attrs :: inner) ++ [EndElement name])%list.
    rewrite feed_app. erewrite bind_Ok by exact Hfeed.
    rewrite feed_cons. erewrite bind_Ok by exact H3. reflexivity.
  - cbn [stdout]. do 2 f_equal. destruct (has_start inner).
    + specialize (Hi1 eq_refl). unfold st1 in Hi1. cbn [elementStack] in Hi1.
      rewrite length_app, Nat2Z.inj_add in Hi1. cbn [List.length] in Hi1.
      destruct (Z.ltb_spec (Z.of_nat (List.length (elementStack st)))
                           (nLastWritePos st2)); [reflexivity | lia].
    + rewrite (Hi0 eq_refl). unfold st1. cbn [nLastWritePos].
      now rewrite Z.ltb_irrefl.
Qed.

Lemma closing_tag_indented_iff_child_witness :
  (* a leaf with text, at depth 1: closed on the line of its start tag *)
  feed [StartElement "b" []; Characters "x"; EndElement "b"]
       (mkState EmptyString ["a"] 0 EmptyString)
  = (Ok tt, mkState EmptyString ["a"] 1
              (nl ++ filler ++ start_marker "b" ++ data_token "x"
               ++ end_marker "b"))
  (* an element at depth 1 with one child: one filler before the closing tag *)
  /\ feed [StartElement "b" []; StartElement "c" []; EndElement "c";
           EndElement "b"]
          (mkState EmptyString ["a"] 0 EmptyString)
     = (Ok tt, mkState EmptyString ["a"] 2
                 (nl ++ filler ++ start_marker "b"
                  ++ nl ++ filler ++ filler ++ start_marker "c"
                  ++ end_marker "c" ++ filler ++ end_marker "b")).
Proof.
  split.
  - destruct (closing_tag_indented_iff_child "b" [] [Characters "x"]
                (mkState EmptyString ["a"] 0 EmptyString) (NoDup_nil _)
                (balanced_text "x" [] balanced_nil))
      as (st2 & st3 & Hf & Hend & Hall & _).
    cbv in Hf. injection Hf as <-.
    etransitivity; [exact Hall|]. rewrite <- Hend. reflexivity.
  - destruct (closing_tag_indented_iff_child "b" []
                [StartElement "c" []; EndElement "c"]
                (mkState EmptyString ["a"] 0 EmptyString) (NoDup_nil _)
                (balanced_element "c" [] [] [] (NoDup_nil _)
                   balanced_nil balanced_nil))
      as (st2 & st3 & Hf & Hend & Hall & _).
    cbv in Hf. injection Hf as <-.
    etransitivity; [exact Hall|]. rewrite <- Hend. reflexivity.
Defined.

(** ** The runs of events that the handler accepts *)

Lemma balanced_app a b : balanced a -> balanced b -> balanced (a ++ b)%list.
Proof.
  induction 1 as [|c a _ IH|name attrs inner rest Hnd Hbi _ _ IHr]; intros Hb.
  - exact Hb.
  - cbn [app]. constructor. now apply IH.
  - cbn [app]. rewrite <- app_assoc. cbn [app].
    constructor; [exact Hnd | exact Hbi | now apply IHr].
Qed.

Lemma open_run_app names p b :
  open_run names p -> balanced b -> open_run names (p ++ b)%list.
Proof.
  intros Hp Hb. destruct Hp as [b0 Hb0|names p name attrs b0 Hp Hnd Hb0].
  - constructor. now apply balanced_app.
  - rewrite <- app_assoc. cbn [app].
    constructor; [exact Hp | exact Hnd | now apply balanced_app].
Qed.

Lemma open_run_top names name evs :
  open_run (names ++ [name])%list evs ->
  exists p attrs b,
    evs = (p ++ StartElement name attrs :: b)%list
    /\ open_run names p /\ NoDup (getNames attrs) /\ balanced b.
Proof.
  intros H. inversion H as [b Hb Hn|names' p name' attrs b Hp Hnd Hb Hn He].
  - symmetry in Hn. apply app_eq_nil in Hn. destruct Hn as [_ Hn]. discriminate.
  - apply app_inj_tail in Hn. destruct Hn as [-> ->].
    exists p, attrs, b. now repeat split.
Qed.

Lemma feed_snoc_Ok p e st st' :
  feed (p ++ [e])%list st = (Ok tt, st') ->
  exists st1, feed p st = (Ok tt, st1) /\ deliver e st1 = (Ok tt, st').
Proof.
  rewrite feed_app. unfold bind at 1.
  destruct (feed p st) as [[[]|x] st1] eqn:E; [|discriminate].
  rewrite feed_cons. unfold bind.
  destruct (deliver e st1) as [[[]|y] st2] eqn:E2; [|discriminate].
  intros H. exists st1. split; [reflexivity|]. now rewrite E2, <- H.
Qed.

Lemma feed_accepted evs :
  forall st st',
    elementStack st = [] -> distinct_attributes evs ->
    feed evs st = (Ok tt, st') -> open_run (elementStack st') evs.
Proof.
  induction evs as [|e p IH] using rev_ind; intros st st' Hempty Hda Hf.
  - injection Hf as <-. rewrite Hempty. constructor. constructor.
  - apply feed_snoc_Ok in Hf. destruct Hf as (st1 & Hp & He).
    assert (Hrun : open_run (elementStack st1) p).
    { apply (IH st st1 Hempty); [|exact Hp].
      intros n a Hin. apply (Hda n a). apply in_or_app. now left. }
    destruct e as [name attrs|c|name]; cbn [deliver] in He.
    + assert (Hnd : NoDup (getNames attrs)).
      { apply (Hda name attrs). apply in_or_app. right. now left. }
      rewrite (startElement_spec name attrs st1 Hnd) in He.
      injection He as <-. cbn [elementStack].
      constructor; [exact Hrun | exact Hnd | constructor].
    + injection He as <-. cbn [elementStack].
      apply open_run_app; [exact Hrun | repeat constructor].
    + destruct (endElement_cases name st1)
        as [(front & Hs & out & H)|[(front & top & _ & _ & H)|[_ H]]];
        rewrite H in He; [|discriminate|discriminate].
      injection He as <-. cbn [elementStack].
      rewrite Hs in Hrun. apply open_run_top in Hrun.
      destruct Hrun as (p' & attrs & b & -> & Hp' & Hnd & Hb).
      rewrite <- app_assoc. cbn [app]. apply open_run_app; [exact Hp'|].
      apply (balanced_element name attrs b []); [exact Hnd | exact Hb | constructor].
Qed.

(** X6.  The handler accepts proper bracket sequences only.  If a run of
    events, delivered to a handler whose stack is empty, is handled to the
    end, then the run is made of properly bracketed runs separated by the
    start tags that are still open, and the stack holds the names of these
    start tags in order; if moreover the stack is empty at the end, the
    whole run is properly bracketed.  The attributes of each start tag are
    taken to have distinct names. *)
Theorem handler_accepts_only_balanced evs st st' :
  elementStack st = [] -> distinct_attributes evs ->
  feed evs st = (Ok tt, st') ->
  open_run (elementStack st') evs
  /\ (elementStack st' = [] -> balanced evs).
Proof.
  intros Hempty Hda Hf.
  pose proof (feed_accepted evs st st' Hempty Hda Hf) as Hrun.
  split; [exact Hrun|]. intros Hend. rewrite Hend in Hrun.
  inversion Hrun as [b Hb Hn|names p name attrs b Hp Hnd Hb Hn He]; [exact Hb|].
  apply app_eq_nil in Hn. destruct Hn as [_ Hn]. discriminate.
Qed.

Lemma handler_accepts_only_balanced_witness :
  balanced Sample.document.
Proof.
  refine (proj2 (handler_accepts_only_balanced Sample.document initial
                   (snd (feed Sample.document initial)) eq_refl _ eq_refl)
            eq_refl).
  intros name attrs Hin. cbn in Hin.
  destruct Hin as [H|[H|[H|[H|[H|[]]]]]]; inversion H; subst.
  - repeat constructor. intros [].
  - constructor.
Defined.

(** * Further properties of the driver *)

Section Runs.

Context {source : Type}.
Variable open_ : string -> result source.
Variable event_source : source -> list event * option string.

Lemma main_succeeds path src st st' :
  open_ path = Ok src ->
  feed (fst (event_source src)) st = (Ok tt, st') ->
  snd (event_source src) = None ->
  main open_ event_source path st = (Ok tt, st').
Proof.
  intros Ho Hf He. unfold main, try_except.
  erewrite bind_Ok by (unfold lift; rewrite Ho; reflexivity).
  unfold xml_sax_parse. erewrite bind_Ok by exact Hf. now rewrite He.
Qed.

Lemma main_handler_raises path src x st st' :
  open_ path = Ok src ->
  feed (fst (event_source src)) st = (Raise x, st') ->
  x = IndexError \/ x = TypeError ->
  main open_ event_source path st = (Raise x, st').
Proof.
  intros Ho Hf Hx. unfold main, try_except.
  erewrite bind_Ok by (unfold lift; rewrite Ho; reflexivity).
  unfold xml_sax_parse. erewrite bind_Raise by exact Hf.
  destruct Hx as [->| ->]; reflexivity.
Qed.

(** X7.  With one argument that is not a help flag, a file that opens and
    a parser that delivers a properly bracketed run of events without an
    error, the script handles all the events, gives the stack back as it
    was, prints one more line break and exits with status 0. *)
Theorem well_formed_document_exits_0 prog path src st :
  path <> "-h" -> path <> "--help" ->
  open_ path = Ok src ->
  snd (event_source src) = None ->
  balanced (fst (event_source src)) ->
  exists st',
    feed (fst (event_source src)) st = (Ok tt, st')
    /\ elementStack st' = elementStack st
    /\ script open_ event_source [prog; path] st
       = (Raise (SystemExit 0), wrote st' nl)
    /\ exit_status (fst (script open_ event_source [prog; path] st)) = 0%Z.
Proof.
  intros H1 H2 Ho He Hb.
  destruct (feed_balanced _ Hb st) as (st' & Hf & Hs).
  exists st'. split; [exact Hf|]. split; [exact Hs|].
  rewrite (script_one open_ event_source prog path st H1 H2).
  erewrite bind_Ok by (eapply main_succeeds; eassumption).
  now split.
Qed.

(** X8.  [main] catches nothing that the handler raises.  With one argument
    that is not a help flag and a file that opens, if the handler raises
    an exception on one of the events, the script ends with this exception
    and with exit status 1; standard output holds what the handler wrote
    and nothing more: no message of [main], no final line break. *)
Theorem handler_exception_exits_1 prog path src x st st' :
  path <> "-h" -> path <> "--help" ->
  open_ path = Ok src ->
  feed (fst (event_source src)) st = (Raise x, st') ->
  script open_ event_source [prog; path] st = (Raise x, st')
  /\ exit_status (fst (script open_ event_source [prog; path] st)) = 1%Z.
Proof.
  intros H1 H2 Ho Hf.
  assert (Hx : x = IndexError \/ x = TypeError).
  { destruct (feed_outcome (fst (event_source src)) st)
      as [[s H]|[[s H]|[s H]]]; rewrite H in Hf; inversion Hf; auto. }
  rewrite (script_one open_ event_source prog path st H1 H2).
  erewrite bind_Raise by (eapply main_handler_raises; eassumption).
  split; [reflexivity|]. destruct Hx as [->| ->]; reflexivity.
Qed.

(** X9.  If [open] raises nothing but [OSError], then whatever the
    arguments, the files and the events, the exit status of the script is
    0, 1, 2 or 3: the status 4 of line 50 is never the exit status. *)
Theorem exit_status_is_0_1_2_or_3 argv st :
  (forall path x, open_ path = Raise x -> exists msg, x = OSError msg) ->
  let status := exit_status (fst (script open_ event_source argv st)) in
  status = 0%Z \/ status = 1%Z \/ status = 2%Z \/ status = 3%Z.
Proof.
  intros Hopen. destruct argv as [|prog [|a rest]];
    [right; left; reflexivity | right; left; reflexivity |].
  destruct (string_dec a "-h") as [Ha|Ha].
  { cbv zeta. rewrite script_help by now left. now left. }
  destruct (string_dec a "--help") as [Hb|Hb].
  { cbv zeta. rewrite script_help by now right. now left. }
  destruct rest as [|b rest].
  2:{ cbv zeta. rewrite script_too_many by assumption. right. now left. }
  cbv zeta. rewrite (script_one open_ event_source prog a st Ha Hb).
  destruct (open_ a) as [src|x] eqn:Ho.
  - destruct (feed_outcome (fst (event_source src)) st)
      as [[st' Hf]|[[st' Hf]|[st' Hf]]].
    + destruct (snd (event_source src)) as [msg|] eqn:He.
      * erewrite bind_Raise by (eapply main_parse_fails; eassumption).
        right. right. now left.
      * erewrite bind_Ok by (eapply main_succeeds; eassumption). now left.
    + erewrite bind_Raise by (eapply main_handler_raises; eauto).
      right. now left.
    + erewrite bind_Raise by (eapply main_handler_raises; eauto).
      right. now left.
  - destruct (Hopen a x Ho) as [msg ->].
    erewrite bind_Raise by (apply main_open_fails, Ho).
    right. right. now right.
Qed.

End Runs.

Lemma well_formed_document_exits_0_witness :
  balanced (fst (Sample.event_source tt))
  /\ script Sample.open_ Sample.event_source ["./xmlParse.py"; "doc.xml"] initial
     = (Raise (SystemExit 0),
        mkState EmptyString [] 1
          (nl ++ start_marker "a" ++ attribute_token ("id", "7")
           ++ nl ++ filler ++ start_marker "b" ++ data_token "hi"
           ++ end_marker "b" ++ end_marker "a" ++ nl)).
Proof.
  assert (Hb : balanced (fst (Sample.event_source tt))).
  { apply (balanced_element "a" [("id", "7")]
             [Characters "hi"; StartElement "b" []; EndElement "b"] []).
    - repeat constructor. intros [].
    - constructor. apply (balanced_element "b" [] [] []); constructor.
    - constructor. }
  split; [exact Hb|].
  destruct (well_formed_document_exits_0 Sample.open_ Sample.event_source
              "./xmlParse.py" "doc.xml" tt initial) as (st' & Hf & _ & Hs & _);
    [discriminate | discriminate | reflexivity | reflexivity | exact Hb |].
  cbv in Hf. injection Hf as <-. rewrite Hs. reflexivity.
Defined.

Lemma handler_exception_exits_1_witness :
  feed (fst (Demo.event_source Demo.crossing)) initial
  = (Raise TypeError, mkState EmptyString [] 0 (nl ++ start_marker "a"))
  /\ exit_status
       (fst (script Demo.open_ Demo.event_source
               ["./xmlParse.py"; "crossing.xml"] initial)) = 1%Z.
Proof.
  split; [reflexivity|].
  refine (proj2 (handler_exception_exits_1 Demo.open_ Demo.event_source
    "./xmlParse.py" "crossing.xml" Demo.crossing TypeError initial
    (mkState EmptyString [] 0 (nl ++ start_marker "a")) _ _ eq_refl eq_refl));
    discriminate.
Defined.

Lemma exit_status_is_0_1_2_or_3_witness :
  (forall path x, Demo.open_ path = Raise x -> exists msg, x = OSError msg)
  (* [open] raises [OSError] *)
  /\ Demo.open_ "missing.xml"
     = Raise (OSError "[Errno 2] No such file or directory: 'missing.xml'")
  /\ (let status :=
        exit_status
          (fst (script Demo.open_ Demo.event_source
                  ["./xmlParse.py"; "missing.xml"] initial)) in
      status = 0%Z \/ status = 1%Z \/ status = 2%Z \/ status = 3%Z)
  (* the file opens and the handler raises [TypeError] *)
  /\ (let status :=
        exit_status
          (fst (script Demo.open_ Demo.event_source
                  ["./xmlParse.py"; "crossing.xml"] initial)) in
      status = 0%Z \/ status = 1%Z \/ status = 2%Z \/ status = 3%Z)
  (* the file opens and the parser ends with an error *)
  /\ (let status :=
        exit_status
          (fst (script Demo.open_ Demo.event_source
                  ["./xmlParse.py"; "broken.xml"] initial)) in
      status = 0%Z \/ status = 1%Z \/ status = 2%Z \/ status = 3%Z).
Proof.
  assert (H : forall path x,
             Demo.open_ path = Raise x -> exists msg, x = OSError msg).
  { intros path x Hx. unfold Demo.open_ in Hx.
    destruct (String.eqb path "missing.xml").
    - injection Hx as <-. eexists. reflexivity.
    - destruct (String.eqb path "crossing.xml"); discriminate Hx. }
  split; [exact H|]. split; [reflexivity|]. split; [|split].
  - exact (exit_status_is_0_1_2_or_3 Demo.open_ Demo.event_source
             ["./xmlParse.py"; "missing.xml"] initial H).
  - exact (exit_status_is_0_1_2_or_3 Demo.open_ Demo.event_source
             ["./xmlParse.py"; "crossing.xml"] initial H).
  - exact (exit_status_is_0_1_2_or_3 Demo.open_ Demo.event_source
             ["./xmlParse.py"; "broken.xml"] initial H).
Defined.

(** * Further properties of runs of events *)

(** X10.  Whatever the stack at the start, when a run of events is handled
    to the end, the stack has grown by the number of start tags minus the
    number of end tags of the run. *)
Theorem stack_length_after_run evs st st' :
  feed evs st = (Ok tt, st') ->
  Z.of_nat (List.length (elementStack st'))
  = (Z.of_nat (List.length (elementStack st)) + depth evs)%Z.
Proof.
  revert st; induction evs as [|e evs IH]; intros st Hf.
  - injection Hf as <-. cbn [depth]. lia.
  - rewrite feed_cons in Hf. cbn [depth].
    destruct e as [name attrs|c|name]; cbn [deliver delta] in *.
    + destruct (startElement_total name attrs st) as [out H].
      erewrite bind_Ok in Hf by exact H. apply IH in Hf.
      cbn [elementStack] in Hf. rewrite length_app, Nat2Z.inj_add in Hf.
      cbn [List.length] in Hf. lia.
    + erewrite bind_Ok in Hf by reflexivity. apply IH in Hf.
      cbn [elementStack] in Hf. lia.
    + destruct (endElement_cases name st)
        as [(front & Hs & out & H)|[(front & top & _ & _ & H)|[_ H]]].
      * erewrite bind_Ok in Hf by exact H. apply IH in Hf.
        cbn [elementStack] in Hf. rewrite Hs, length_app, Nat2Z.inj_add.
        cbn [List.length]. lia.
      * erewrite bind_Raise in Hf by exact H. discriminate Hf.
      * erewrite bind_Raise in Hf by exact H. discriminate Hf.
Qed.

Lemma stack_length_after_run_witness :
  feed [EndElement "b"; StartElement "c" []; StartElement "d" []]
       (mkState EmptyString ["a"; "b"] 1 EmptyString)
  = (Ok tt, mkState EmptyString ["a"; "c"; "d"] 2
              (end_marker "b" ++ nl ++ filler ++ start_marker "c"
               ++ nl ++ filler ++ filler ++ start_marker "d"))
  /\ Z.of_nat (List.length ["a"; "c"; "d"])
     = (Z.of_nat (List.length ["a"; "b"])
        + depth [EndElement "b"; StartElement "c" []; StartElement "d" []])%Z.
Proof.
  split; [reflexivity|].
  exact (stack_length_after_run
           [EndElement "b"; StartElement "c" []; StartElement "d" []]
           (mkState EmptyString ["a"; "b"] 1 EmptyString)
           (mkState EmptyString ["a"; "c"; "d"] 2
              (end_marker "b" ++ nl ++ filler ++ start_marker "c"
               ++ nl ++ filler ++ filler ++ start_marker "d"))
           eq_refl).
Defined.

(** ** White space between the tags *)

Lemma all_space_app a b : all_space (a ++ b) = all_space a && all_space b.
Proof.
  induction a as [|c a IH]; cbn [append all_space]; [reflexivity|].
  now rewrite IH, andb_assoc.
Qed.

Lemma lstrip_all_space s : all_space s = true -> lstrip s = EmptyString.
Proof.
  induction s as [|c s IH]; cbn [all_space lstrip]; [reflexivity|].
  intros H. apply andb_true_iff in H. destruct H as [Hc Hs].
  rewrite Hc. now apply IH.
Qed.

Lemma strip_all_space s : all_space s = true -> strip s = EmptyString.
Proof. intros H. unfold strip. now rewrite lstrip_all_space. Qed.

Lemma feed_without_text evs :
  distinct_attributes evs ->
  (forall c, In (Characters c) evs -> all_space c = true) ->
  forall st st',
    all_space (charBuffer st) = true -> all_space (charBuffer st') = true ->
    elementStack st = elementStack st' ->
    nLastWritePos st = nLastWritePos st' ->
    stdout st = stdout st' ->
    fst (feed evs st) = fst (feed (without_text evs) st')
    /\ elementStack (snd (feed evs st))
       = elementStack (snd (feed (without_text evs) st'))
    /\ nLastWritePos (snd (feed evs st))
       = nLastWritePos (snd (feed (without_text evs) st'))
    /\ stdout (snd (feed evs st))
       = stdout (snd (feed (without_text evs) st')).
Proof.
  induction evs as [|e evs IH]; intros Hda Hws st st' Hb Hb' Hs Hn Ho.
  - cbn. now repeat split.
  - assert (Hda' : distinct_attributes evs)
      by (intros n a Hin; apply (Hda n a); now right).
    assert (Hws' : forall c, In (Characters c) evs -> all_space c = true)
      by (intros c Hin; apply Hws; now right).
    destruct e as [name attrs|c|name]; cbn [without_text].
    + assert (Hnd : NoDup (getNames attrs)) by (apply (Hda name attrs); now left).
      rewrite !feed_cons.
      erewrite !bind_Ok by (apply startElement_spec, Hnd).
      apply (IH Hda' Hws'); cbn [charBuffer elementStack nLastWritePos stdout];
        try assumption; now rewrite ?Hs, ?Ho.
    + rewrite feed_cons. erewrite bind_Ok by reflexivity.
      apply (IH Hda' Hws'); cbn [charBuffer elementStack nLastWritePos stdout];
        try assumption.
      rewrite all_space_app, Hb. apply Hws. now left.
    + rewrite !feed_cons.
      destruct (unsnoc (elementStack st)) as [[front top]|] eqn:E.
      * apply unsnoc_Some in E. assert (E' := E). rewrite Hs in E'.
        destruct (String.eqb_spec name top) as [->|Hne].
        -- erewrite !bind_Ok by (apply endElement_spec; eassumption).
           apply (IH Hda' Hws');
             cbn [charBuffer elementStack nLastWritePos stdout];
             try reflexivity; try assumption.
           now rewrite !strip_all_space, Hn, Ho by assumption.
        -- erewrite !bind_Raise
             by (apply endElement_mismatch with (top := top); eassumption).
           cbn [fst snd elementStack nLastWritePos stdout]. now repeat split.
      * apply unsnoc_None in E. assert (E' := E). rewrite Hs in E'.
        erewrite !bind_Raise by (apply endElement_empty; eassumption).
        cbn [fst snd]. now repeat split.
Qed.

(** X11.  White space between the tags does not show.  When the buffer
    holds white space only and every piece of character data of a run is
    white space only, the run gives the same result, the same stack, the
    same [nLastWritePos] and the same output as the run without its
    character data.  The attributes of each start tag are taken to have
    distinct names. *)
Theorem white_space_between_tags_is_invisible evs st :
  distinct_attributes evs ->
  (forall c, In (Characters c) evs -> all_space c = true) ->
  all_space (charBuffer st) = true ->
  fst (feed evs st) = fst (feed (without_text evs) st)
  /\ elementStack (snd (feed evs st))
     = elementStack (snd (feed (without_text evs) st))
  /\ nLastWritePos (snd (feed evs st))
     = nLastWritePos (snd (feed (without_text evs) st))
  /\ stdout (snd (feed evs st)) = stdout (snd (feed (without_text evs) st)).
Proof.
  intros Hda Hws Hb. now apply feed_without_text.
Qed.

Lemma white_space_between_tags_is_invisible_witness :
  stdout (snd (feed [StartElement "a" []; Characters (nl ++ "  ");
                     StartElement "b" []; EndElement "b"; Characters nl;
                     EndElement "a"] initial))
  = stdout (snd (feed [StartElement "a" []; StartElement "b" [];
                       EndElement "b"; EndElement "a"] initial)).
Proof.
  refine (proj2 (proj2 (proj2 (white_space_between_tags_is_invisible
    [StartElement "a" []; Characters (nl ++ "  ");
     StartElement "b" []; EndElement "b"; Characters nl; EndElement "a"]
    initial _ _ eq_refl)))).
  - intros name attrs Hin. cbn in Hin.
    destruct Hin as [H|[H|[H|[H|[H|[H|[]]]]]]]; inversion H; subst; constructor.
  - intros c Hin. cbn in Hin.
    destruct Hin as [H|[H|[H|[H|[H|[H|[]]]]]]]; inversion H; subst; reflexivity.
Defined.
